(** * EmulatorJS player: session lifecycle, cheat synchronisation, save/state bridge

    A shallow embedding of [frontend/src/views/Player/EmulatorJS/Player.vue]
    and of [getCheatCodes] from [frontend/src/services/api/cheat.ts], and, in
    the module [Cheats], of the handlers of
    [frontend/src/components/Details/Cheats.vue].

    The component is event driven. Every handler of the component is a
    computation in the monad [Js]: it reads and writes the session (the
    component's refs, the [window.EJS_*] globals, the browser's timer table,
    the event bus) and records the calls it makes on the outside world
    (native runtime methods, console, notifications, HTTP) as a list of
    [event]s. It runs until it returns, throws, or reaches an [await]; at an
    [await] it pauses, the event loop may run any other handler, and it goes
    on later from the session as it is then. What the outside world answers
    to an [await] (an HTTP response, the file the user picks) is an argument
    of the handler. *)

From Stdlib Require Import Strings.String Strings.Ascii Init.Byte
  Numbers.DecimalString.
From stdpp Require Import base option list gmap.

Local Open Scope string_scope.
Local Open Scope list_scope.

(** ** Data *)

(** [Uint8Array] / [ArrayBuffer] contents. *)
Definition bytes := list byte.

(** [interface CheatCode] (Player.vue, cheat.ts). *)
Record CheatCode := {
  id : string;
  name : string;
  code : string;
  description : string;
  type : string;
  romId : string;
}.

(** [window.EJS_cheats : Array<[string, string]>]. *)
Definition CheatBuffer := list (string * string).

(** [interface EmulatorCheat], local to [updateEmulatorCheats]. *)
Record EmulatorCheat := {
  desc : string;
  cheat_code : string;
  checked : bool;
}.

(** The parts of [DetailedRom], [SaveSchema] and [StateSchema] the component reads. *)
Record DetailedRom := {
  rom_id : nat;
  platform_slug : string;
  fs_name_no_tags : string;
}.

Record SaveSchema := {
  save_id : nat;
  save_download_path : string;
}.

Record StateSchema := {
  state_id : nat;
  state_download_path : string;
}.

(** [defineProps]. [bios] is only used for a URL and local storage. *)
Record Props := {
  rom : DetailedRom;
  save : option SaveSchema;
  state : option StateSchema;
  core : option string;
  disc : option nat;
}.

(** A property of the runtime object that the code calls as a method: it can
    be missing ([typeof m !== "function"]), or a function that returns or
    throws. *)
Inductive method :=
| Missing
| Native (throws : bool).

Definition is_function (m : method) : bool :=
  match m with Missing => false | Native _ => true end.

(** [window.EJS_emulator.gameManager], restricted to the cheat table. *)
Record GameManager := {
  resetCheat : method;
  setCheat : method;
}.

(** [window.EJS_emulator]: the runtime object. [storage_states] is
    [EJS_emulator.storage.states], the runtime's browser-local store. The
    methods the component calls without looking ([displayMessage], [pause],
    [toggleFullscreen], [selectFile]) are functions that return. *)
Record Emulator := {
  gameManager : option GameManager;
  updateCheatUI : method;
  getBaseFileName : string;
  settings : gmap string string;
  storage_states : gmap string bytes;
}.

(** The five global hooks the script assigns on [window]. *)
Inductive hook :=
| EJS_onGameStart
| EJS_onSaveState
| EJS_onLoadState
| EJS_onSaveSave
| EJS_onLoadSave.

(** Listeners of the injected event bus: the two closures of this component,
    or a listener of some other component. *)
Inductive listener :=
| loadSave_listener
| loadState_listener
| foreign_listener (n : nat).

(** What a pending [setTimeout] will run. *)
Inductive task :=
| gameStartTask
| cheatUpdateTask
| removeClassTask (className icon : string).

(** Calls made on the outside world, in the order they are made. *)
Inductive event :=
| call_resetCheat
| call_setCheat (index : nat) (enabled : bool) (code : string)
| call_updateCheatUI
| call_loadSave (data : bytes)
| call_loadState (data : bytes)
| call_selectFile
| call_pause
| call_toggleFullscreen (on : bool)
| call_displayMessage (message : string) (duration : nat)
| classList_add (className icon : string)
| classList_remove (className icon : string)
| console_log (message : string)
| console_error (message : string)
| api_get (path : string)
| api_getCheatCodes (romId : nat)
| upload_state (romId : nat) (stateFile screenshotFile : bytes)
| upload_save (romId : nat) (prior : option nat) (saveFile screenshotFile : bytes)
| romsStore_update (romId : nat)
| emitter_emit (name : string) (romId : nat).

Inductive error :=
| TypeError
| SyntaxError
| NetworkError
| NativeError.

(** ** The session *)

Record Session := {
  props : Props;
  romRef : DetailedRom;
  saveRef : option SaveSchema;
  cheatUpdateTimeout : option nat;
  EJS_core : option string;
  EJS_gameID : nat;
  EJS_cheats : CheatBuffer;
  EJS_emulator : option Emulator;
  EJS_hooks : list hook;
  timers : gmap nat task;
  nextTimer : nat;
  messageElement : bool;
  emitter : option (list (string * listener));
  playing : bool;
  fullScreen : bool;
}.

Definition set_romRef (v : DetailedRom) (s : Session) : Session :=
  {| props := props s; romRef := v; saveRef := saveRef s;
     cheatUpdateTimeout := cheatUpdateTimeout s; EJS_core := EJS_core s;
     EJS_gameID := EJS_gameID s; EJS_cheats := EJS_cheats s;
     EJS_emulator := EJS_emulator s; EJS_hooks := EJS_hooks s;
     timers := timers s; nextTimer := nextTimer s;
     messageElement := messageElement s; emitter := emitter s;
     playing := playing s; fullScreen := fullScreen s |}.

Definition set_saveRef (v : option SaveSchema) (s : Session) : Session :=
  {| props := props s; romRef := romRef s; saveRef := v;
     cheatUpdateTimeout := cheatUpdateTimeout s; EJS_core := EJS_core s;
     EJS_gameID := EJS_gameID s; EJS_cheats := EJS_cheats s;
     EJS_emulator := EJS_emulator s; EJS_hooks := EJS_hooks s;
     timers := timers s; nextTimer := nextTimer s;
     messageElement := messageElement s; emitter := emitter s;
     playing := playing s; fullScreen := fullScreen s |}.

Definition set_cheatUpdateTimeout (v : option nat) (s : Session) : Session :=
  {| props := props s; romRef := romRef s; saveRef := saveRef s;
     cheatUpdateTimeout := v; EJS_core := EJS_core s;
     EJS_gameID := EJS_gameID s; EJS_cheats := EJS_cheats s;
     EJS_emulator := EJS_emulator s; EJS_hooks := EJS_hooks s;
     timers := timers s; nextTimer := nextTimer s;
     messageElement := messageElement s; emitter := emitter s;
     playing := playing s; fullScreen := fullScreen s |}.

Definition set_EJS_cheats (v : CheatBuffer) (s : Session) : Session :=
  {| props := props s; romRef := romRef s; saveRef := saveRef s;
     cheatUpdateTimeout := cheatUpdateTimeout s; EJS_core := EJS_core s;
     EJS_gameID := EJS_gameID s; EJS_cheats := v;
     EJS_emulator := EJS_emulator s; EJS_hooks := EJS_hooks s;
     timers := timers s; nextTimer := nextTimer s;
     messageElement := messageElement s; emitter := emitter s;
     playing := playing s; fullScreen := fullScreen s |}.

Definition set_EJS_emulator (v : option Emulator) (s : Session) : Session :=
  {| props := props s; romRef := romRef s; saveRef := saveRef s;
     cheatUpdateTimeout := cheatUpdateTimeout s; EJS_core := EJS_core s;
     EJS_gameID := EJS_gameID s; EJS_cheats := EJS_cheats s;
     EJS_emulator := v; EJS_hooks := EJS_hooks s;
     timers := timers s; nextTimer := nextTimer s;
     messageElement := messageElement s; emitter := emitter s;
     playing := playing s; fullScreen := fullScreen s |}.

Definition set_timers (v : gmap nat task) (n : nat) (s : Session) : Session :=
  {| props := props s; romRef := romRef s; saveRef := saveRef s;
     cheatUpdateTimeout := cheatUpdateTimeout s; EJS_core := EJS_core s;
     EJS_gameID := EJS_gameID s; EJS_cheats := EJS_cheats s;
     EJS_emulator := EJS_emulator s; EJS_hooks := EJS_hooks s;
     timers := v; nextTimer := n;
     messageElement := messageElement s; emitter := emitter s;
     playing := playing s; fullScreen := fullScreen s |}.

Definition set_emitter (v : option (list (string * listener))) (s : Session) : Session :=
  {| props := props s; romRef := romRef s; saveRef := saveRef s;
     cheatUpdateTimeout := cheatUpdateTimeout s; EJS_core := EJS_core s;
     EJS_gameID := EJS_gameID s; EJS_cheats := EJS_cheats s;
     EJS_emulator := EJS_emulator s; EJS_hooks := EJS_hooks s;
     timers := timers s; nextTimer := nextTimer s;
     messageElement := messageElement s; emitter := v;
     playing := playing s; fullScreen := fullScreen s |}.

Definition set_flags (p f : bool) (s : Session) : Session :=
  {| props := props s; romRef := romRef s; saveRef := saveRef s;
     cheatUpdateTimeout := cheatUpdateTimeout s; EJS_core := EJS_core s;
     EJS_gameID := EJS_gameID s; EJS_cheats := EJS_cheats s;
     EJS_emulator := EJS_emulator s; EJS_hooks := EJS_hooks s;
     timers := timers s; nextTimer := nextTimer s;
     messageElement := messageElement s; emitter := emitter s;
     playing := p; fullScreen := f |}.

(** ** The monad of handlers *)

(** How a handler ends: it returns, it throws (an async handler rejects), or
    it waits on a promise that never settles. *)
Inductive outcome (A : Type) :=
| Return (a : A)
| Throw (e : error)
| Suspended.
Arguments Return {A} a.
Arguments Throw {A} e.
Arguments Suspended {A}.

(** How far a handler gets in one go: to its end, or to an [await]. There it
    has made the calls [t] and left the session [s]; [resume] is the rest of
    it, run from the session as it is when the awaited promise has settled. *)
Inductive progress (A : Type) :=
| Ended (o : outcome A) (s : Session) (t : list event)
| Paused (s : Session) (t : list event) (resume : Session → progress A).
Arguments Ended {A} o s t.
Arguments Paused {A} s t resume.

Definition Js (A : Type) : Type := Session → progress A.

(** The calls [t] were made before [p] started. *)
Definition prepend {A} (t : list event) (p : progress A) : progress A :=
  match p with
  | Ended o s t' => Ended o s (t ++ t')
  | Paused s t' resume => Paused s (t ++ t') resume
  end.

Definition ret {A} (a : A) : Js A := fun s => Ended (Return a) s [].

Fixpoint bind_progress {A B} (p : progress A) (k : A → Js B) : progress B :=
  match p with
  | Ended (Return a) s t => prepend t (k a s)
  | Ended (Throw e) s t => Ended (Throw e) s t
  | Ended Suspended s t => Ended Suspended s t
  | Paused s t resume => Paused s t (fun s' => bind_progress (resume s') k)
  end.

Definition bind {A B} (m : Js A) (k : A → Js B) : Js B :=
  fun s => bind_progress (m s) k.

Definition throw {A} (e : error) : Js A := fun s => Ended (Throw e) s [].

Definition suspend {A} : Js A := fun s => Ended Suspended s [].

Fixpoint catch_progress {A} (p : progress A) (h : error → Js A) : progress A :=
  match p with
  | Ended (Throw e) s t => prepend t (h e s)
  | Ended o s t => Ended o s t
  | Paused s t resume => Paused s t (fun s' => catch_progress (resume s') h)
  end.

(** [try { m } catch (error) { h error }]. *)
Definition try_catch {A} (m : Js A) (h : error → Js A) : Js A :=
  fun s => catch_progress (m s) h.

Fixpoint await_progress {A} (p : progress A) : progress A :=
  match p with
  | Ended Suspended s t => Ended Suspended s t
  | Ended o s t => Paused s t (fun s' => Ended o s' [])
  | Paused s t resume => Paused s t (fun s' => await_progress (resume s'))
  end.

(** [await m]: when the promise of [m] has settled the handler pauses, and
    goes on with the value, or the exception, once the event loop gets back
    to it. *)
Definition await {A} (m : Js A) : Js A := fun s => await_progress (m s).

Definition emit (e : event) : Js unit := fun s => Ended (Return tt) s [e].

Definition gets {A} (f : Session → A) : Js A := fun s => Ended (Return (f s)) s [].

Definition modify (f : Session → Session) : Js unit :=
  fun s => Ended (Return tt) (f s) [].

Declare Scope js_scope.
Delimit Scope js_scope with js.
Notation "x <- m ;; k" := (bind m (fun x => k))
  (at level 100, m at next level, k at level 200, right associativity) : js_scope.
Notation "m ;; k" := (bind m (fun _ => k))
  (at level 100, k at level 200, right associativity) : js_scope.
Local Open Scope js_scope.

(** A handler run to its end with nothing else happening at its awaits. *)
Fixpoint finish {A} (p : progress A) : outcome A * Session * list event :=
  match p with
  | Ended o s t => (o, s, t)
  | Paused s t resume =>
      match finish (resume s) with (o, s', t') => (o, s', t ++ t') end
  end.

Definition result {A} (p : progress A) : outcome A := (finish p).1.1.
Definition final {A} (p : progress A) : Session := (finish p).1.2.
Definition trace {A} (p : progress A) : list event := (finish p).2.

(** ** Browser and runtime primitives *)

(** [window.setTimeout(task, delay)]: a fresh identifier, never reused. The
    delay only orders the firing; any pending timer may fire next. *)
Definition setTimeout (t : task) (delay : nat) : Js nat :=
  fun s => Ended (Return (nextTimer s))
             (set_timers (<[nextTimer s := t]> (timers s)) (S (nextTimer s)) s) [].

(** [clearTimeout(id)]: a no-op on an identifier that is not pending. *)
Definition clearTimeout (i : nat) : Js unit :=
  modify (fun s => set_timers (delete i (timers s)) (nextTimer s) s).

(** Reading a property of [window.EJS_emulator]: a [TypeError] when it is undefined. *)
Definition the_emulator : Js Emulator :=
  fun s =>
    match EJS_emulator s with
    | Some e => Ended (Return e) s []
    | None => Ended (Throw TypeError) s []
    end.

Definition the_gameManager : Js GameManager :=
  e <- the_emulator ;;
  match gameManager e with
  | Some g => ret g
  | None => throw TypeError
  end.

(** Calling [m(...)]: a [TypeError] when [m] is not a function; otherwise the
    call is made, and returns or throws. *)
Definition call (m : method) (ev : event) : Js unit :=
  match m with
  | Missing => throw TypeError
  | Native false => emit ev
  | Native true => emit ev ;; throw NativeError
  end.

(** [displayMessage(message, {duration, className, icon})]. The runtime shows
    the message; when the message element is in the document it is decorated
    with the two classes, which a timer removes after [duration].
    [classList.add] rejects an empty token before adding anything. *)
Definition displayMessage (message : string) (duration : nat)
    (className icon : string) : Js unit :=
  _ <- the_emulator ;;
  emit (call_displayMessage message duration) ;;
  element <- gets messageElement ;;
  if element then
    if String.eqb icon "" then throw SyntaxError
    else
      emit (classList_add className icon) ;;
      _ <- setTimeout (removeClassTask className icon) duration ;;
      ret tt
  else ret tt.

(** ** Cheat source adapter *)

(** [formatCheatCodesForEmulatorJS]. *)
Definition formatCheatCodesForEmulatorJS (cheatCodes : list CheatCode)
    : Js CheatBuffer :=
  if Nat.eqb (length cheatCodes) 0 then ret []
  else
    emit (console_log "Formatting cheat codes for EmulatorJS:") ;;
    ret (map (fun c => (name c, code c)) cheatCodes).

(** ** Cheat service and its wrappers *)

(** What a request settles to. *)
Inductive response (A : Type) :=
| Rejected
| Resolved (data : A).
Arguments Rejected {A}.
Arguments Resolved {A} data.

(** The promise of a request whose answer is [r]. *)
Definition settle {A} (r : response A) : Js A :=
  match r with
  | Rejected => throw NetworkError
  | Resolved data => ret data
  end.

(** [n.toString()] of a non-negative integer. *)
Definition toString (n : nat) : string := NilEmpty.string_of_uint (Nat.to_uint n).

(** [getCheatCodes] (services/api/cheat.ts), called with the identifier as a
    string: [response.data] may be null or undefined ([None]); a rejection is
    logged, with the identifier, and thrown again. *)
Definition getCheatCodes (romId : nat)
    (r : response (option (list CheatCode))) : Js (option (list CheatCode)) :=
  try_catch
    (emit (api_getCheatCodes romId) ;;
     await (settle r))
    (fun e =>
       emit (console_error
               ("Failed to get cheat codes for ROM " ++ toString romId ++ ":")%string) ;;
       throw e).

(** [fetchCheatCodes]. *)
Definition fetchCheatCodes (r : response (option (list CheatCode)))
    : Js (list CheatCode) :=
  try_catch
    (romId <- gets (fun s => rom_id (romRef s)) ;;
     cheatCodes <- await (getCheatCodes romId r) ;;
     emit (console_log "Fetched cheat codes:") ;;
     ret (match cheatCodes with Some l => l | None => [] end))
    (fun _ =>
       emit (console_error "Error fetching cheat codes:") ;;
       displayMessage "Failed to fetch cheat codes from server" 4000
         "msg-error" "mdi-alert-circle-outline" ;;
       ret []).

(** [loadCheatCodes]. *)
Definition loadCheatCodes (r : response (option (list CheatCode))) : Js unit :=
  try_catch
    (modify (set_EJS_cheats []) ;;
     cheatCodes <- await (fetchCheatCodes r) ;;
     if Nat.ltb 0 (length cheatCodes) then
       formatted <- formatCheatCodesForEmulatorJS cheatCodes ;;
       modify (set_EJS_cheats formatted) ;;
       emit (console_log "Cheat codes loaded:")
     else ret tt)
    (fun _ =>
       emit (console_error "Error loading cheat codes:") ;;
       displayMessage "Failed to load cheat codes" 4000
         "msg-error" "mdi-alert-circle-outline").

(** ** Direct update of the runtime's cheat table *)

(** [cheats.forEach((cheat, index) => f(index, cheat))], from index [i]. *)
Fixpoint forEach_from {A} (i : nat) (l : list A) (f : nat -> A -> Js unit)
    : Js unit :=
  match l with
  | [] => ret tt
  | x :: l' => f i x ;; forEach_from (S i) l' f
  end.

Definition has_gameManager (s : Session) : bool :=
  match EJS_emulator s with
  | Some e => match gameManager e with Some _ => true | None => false end
  | None => false
  end.

(** [updateEmulatorCheats]. *)
Definition updateEmulatorCheats : Js unit :=
  ready <- gets has_gameManager ;;
  if negb ready then
    emit (console_log "Cannot update emulator cheats: emulator not initialized")
  else
    try_catch
      (emit (console_log "Updating emulator cheats directly") ;;
       gm <- the_gameManager ;;
       call (resetCheat gm) call_resetCheat ;;
       still <- gets has_gameManager ;;
       if negb still then
         emit (console_log "Emulator or gameManager not available, skipping cheat update")
       else
         try_catch
           (buffer <- gets EJS_cheats ;;
            let cheats :=
              map (fun '(d, c) => {| desc := d; cheat_code := c; checked := false |})
                  buffer in
            e <- the_emulator ;;
            gm <- the_gameManager ;;
            if negb (is_function (resetCheat gm)) || negb (is_function (setCheat gm))
            then
              emit (console_log "Emulator missing required cheat methods, skipping cheat update")
            else
              call (resetCheat gm) call_resetCheat ;;
              forEach_from 0 cheats (fun index cheat =>
                call (setCheat gm)
                     (call_setCheat index (checked cheat) (cheat_code cheat))) ;;
              if is_function (updateCheatUI e) then
                call (updateCheatUI e) call_updateCheatUI ;;
                emit (console_log "Cheat UI updated successfully")
              else ret tt)
           (fun _ =>
              emit (console_error "Error during cheat update:") ;;
              displayMessage "Failed to apply cheat codes" 4000
                "msg-error" "mdi-alert-circle-outline"))
      (fun _ =>
         emit (console_error "Error updating emulator cheats:") ;;
         displayMessage "Failed to update emulator cheats" 4000
           "msg-error" "mdi-alert-circle-outline").

(** ** Persistence bridge *)

(** [s.replace(pat, rep)] with a string pattern: the first occurrence only. *)
Fixpoint replace_first (pat rep s : string) : string :=
  if String.prefix pat s then
    (rep ++ String.substring (String.length pat) (String.length s - String.length pat) s)%string
  else
    match s with
    | EmptyString => EmptyString
    | String c s' => String c (replace_first pat rep s')
    end.

(** Modelled from the spec: [loadEmulatorJSSave] and [loadEmulatorJSState] of
    [./utils] are not part of the sources at hand; by the pull path of the
    persistence bridge they hand the bytes to the runtime's native "load save"
    and "load state" methods. *)
Definition loadEmulatorJSSave (data : bytes) : Js unit := emit (call_loadSave data).
Definition loadEmulatorJSState (data : bytes) : Js unit := emit (call_loadState data).

(** Modelled from the spec: [saveSave] and [saveState] of [./utils] are not
    part of the sources at hand; by step 2 of the push path they upload the
    blob and the screenshot under the game's identity (and, for a save, the
    prior save), and the caller tests the result for truthiness: the stored
    record on success ([Some]), nothing on failure ([None]). The sources do
    not show whether these helpers write to the runtime's browser-local store
    as well; here they leave the session alone, and what follows speaks of
    the local writes of the handlers only. *)
Definition saveState (r : DetailedRom) (stateFile screenshotFile : bytes)
    (uploaded : option nat) : Js (option nat) :=
  emit (upload_state (rom_id r) stateFile screenshotFile) ;;
  await (ret uploaded).

Definition saveSave (r : DetailedRom) (prior : option SaveSchema)
    (saveFile screenshotFile : bytes) (uploaded : option nat) : Js (option nat) :=
  emit (upload_save (rom_id r) (save_id <$> prior) saveFile screenshotFile) ;;
  await (ret uploaded).

(** [window.EJS_emulator.selectFile()]: the promise settles with the file
    the user picks, or never ([None]). *)
Definition selectFile (picked : option bytes) : Js bytes :=
  _ <- the_emulator ;;
  emit call_selectFile ;;
  match picked with
  | Some file => ret file
  | None => suspend
  end.

(** [file.arrayBuffer()]. *)
Definition arrayBuffer (file : bytes) : Js bytes := ret file.

(** [loadSave]. [data] is the response body requested as an array buffer:
    a buffer of any length, also zero, is an object and so truthy; only a
    missing body ([None]) is falsy. *)
Definition loadSave (sv : SaveSchema) (r : response (option bytes))
    (picked : option bytes) : Js unit :=
  modify (set_saveRef (Some sv)) ;;
  emit (api_get (replace_first "/api" "" (save_download_path sv))) ;;
  data <- await (settle r) ;;
  match data with
  | Some d =>
      loadEmulatorJSSave d ;;
      displayMessage "Save loaded from server" 3000
        "msg-info" "mdi-cloud-download-outline"
  | None =>
      file <- await (selectFile picked) ;;
      buffer <- await (arrayBuffer file) ;;
      loadEmulatorJSSave buffer
  end.

(** [loadState]. *)
Definition loadState (st : StateSchema) (r : response (option bytes))
    (picked : option bytes) : Js unit :=
  emit (api_get (replace_first "/api" "" (state_download_path st))) ;;
  data <- await (settle r) ;;
  match data with
  | Some d =>
      loadEmulatorJSState d ;;
      displayMessage "State loaded from server" 3000
        "msg-info" "mdi-cloud-download-outline"
  | None =>
      file <- await (selectFile picked) ;;
      buffer <- await (arrayBuffer file) ;;
      loadEmulatorJSState buffer
  end.

(** [emitter?.emit(name, romRef.value)]. *)
Definition emitter_emit_rom (name : string) : Js unit :=
  em <- gets emitter ;;
  match em with
  | Some _ => r <- gets romRef ;; emit (emitter_emit name (rom_id r))
  | None => ret tt
  end.

(** [window.EJS_onLoadSave]. *)
Definition onLoadSave : Js unit :=
  _ <- the_emulator ;;
  emit call_pause ;;
  emit (call_toggleFullscreen false) ;;
  emitter_emit_rom "selectSaveDialog".

(** [window.EJS_onLoadState]. *)
Definition onLoadState : Js unit :=
  _ <- the_emulator ;;
  emit call_pause ;;
  emit (call_toggleFullscreen false) ;;
  emitter_emit_rom "selectStateDialog".

(** [window.EJS_onSaveSave]. *)
Definition onSaveSave (saveFile screenshotFile : bytes) (uploaded : option nat)
    : Js unit :=
  r <- gets romRef ;;
  prior <- gets saveRef ;;
  saved <- await (saveSave r prior saveFile screenshotFile uploaded) ;;
  r' <- gets romRef ;;
  emit (romsStore_update (rom_id r')) ;;
  match saved with
  | Some _ =>
      displayMessage "Save synced with server" 4000 "msg-info" "mdi-cloud-sync"
  | None =>
      displayMessage "Error syncing save with server" 4000
        "msg-error" "mdi-sync-alert"
  end.

Definition set_storage_states (v : gmap string bytes) (e : Emulator) : Emulator :=
  {| gameManager := gameManager e; updateCheatUI := updateCheatUI e;
     getBaseFileName := getBaseFileName e; settings := settings e;
     storage_states := v |}.

Definition set_settings (v : gmap string string) (e : Emulator) : Emulator :=
  {| gameManager := gameManager e; updateCheatUI := updateCheatUI e;
     getBaseFileName := getBaseFileName e; settings := v;
     storage_states := storage_states e |}.

(** [window.EJS_emulator.storage.states.put(key, blob)]. *)
Definition storage_states_put (suffix : string) (blob : bytes) : Js unit :=
  e <- the_emulator ;;
  modify (set_EJS_emulator
    (Some (set_storage_states
             (<[(getBaseFileName e ++ suffix)%string := blob]> (storage_states e)) e))).

(** [window.EJS_onSaveState]. *)
Definition onSaveState (stateFile screenshotFile : bytes) (uploaded : option nat)
    : Js unit :=
  r <- gets romRef ;;
  saved <- await (saveState r stateFile screenshotFile uploaded) ;;
  storage_states_put ".state" stateFile ;;
  r' <- gets romRef ;;
  emit (romsStore_update (rom_id r')) ;;
  match saved with
  | Some _ =>
      displayMessage "State synced with server" 4000 "msg-info" "mdi-cloud-sync"
  | None =>
      displayMessage "Error syncing state with server" 4000
        "msg-error" "mdi-sync-alert"
  end.

(** ** Event bus *)

#[global] Instance hook_eq_dec : EqDecision hook.
Proof. solve_decision. Defined.

#[global] Instance listener_eq_dec : EqDecision listener.
Proof. solve_decision. Defined.

(** The bus (mitt) keeps its listeners in registration order: [on] pushes,
    [off] splices out the first occurrence of the handler and is a no-op when
    there is none. *)
Fixpoint remove_first (x : string * listener) (l : list (string * listener))
    : list (string * listener) :=
  match l with
  | [] => []
  | y :: l' => if decide (x = y) then l' else y :: remove_first x l'
  end.

(** [emitter?.on(name, handler)]. *)
Definition emitter_on (name : string) (h : listener) : Js unit :=
  modify (fun s => set_emitter ((fun l => l ++ [(name, h)]) <$> emitter s) s).

(** [emitter?.off(name, handler)]. *)
Definition emitter_off (name : string) (h : listener) : Js unit :=
  modify (fun s => set_emitter (remove_first (name, h) <$> emitter s) s).

(** ** Lifecycle *)

(** [onMounted]. The scroll and the local-storage bookkeeping of the chosen
    firmware, core and disc touch nothing else and are left out. *)
Definition onMounted (r : response (option (list CheatCode))) : Js unit :=
  await (loadCheatCodes r) ;;
  emitter_on "saveSelected" loadSave_listener ;;
  emitter_on "stateSelected" loadState_listener.

(** [watch(() => romRef.value.id, ...)], run when the identifier is set to [newId]. *)
Definition watch_rom_id (newId : nat) (r : response (option (list CheatCode)))
    : Js unit :=
  old <- gets romRef ;;
  modify (set_romRef {| rom_id := newId; platform_slug := platform_slug old;
                        fs_name_no_tags := fs_name_no_tags old |}) ;;
  if decide (newId = rom_id old) then ret tt else await (loadCheatCodes r).

(** [onBeforeUnmount]. *)
Definition onBeforeUnmount : Js unit :=
  pending <- gets cheatUpdateTimeout ;;
  match pending with
  | Some i =>
      clearTimeout i ;;
      modify (set_cheatUpdateTimeout None)
  | None => ret tt
  end ;;
  emitter_off "saveSelected" loadSave_listener ;;
  emitter_off "stateSelected" loadState_listener ;;
  modify (fun s => set_flags (playing s) false s) ;;
  modify (fun s => set_flags false (fullScreen s) s).

(** What the outside world answers to the awaits of the game-start callback. *)
Record GameStartAnswers := {
  save_response : response (option bytes);
  save_file : option bytes;
  state_response : response (option bytes);
  state_file : option bytes;
  cheat_response : response (option (list CheatCode));
}.

(** The callback [window.EJS_onGameStart] defers by 10 ms. *)
Definition gameStartCallback (a : GameStartAnswers) : Js unit :=
  p <- gets props ;;
  match save p with
  | Some sv => await (loadSave sv (save_response a) (save_file a))
  | None => ret tt
  end ;;
  match state p with
  | Some st => await (loadState st (state_response a) (state_file a))
  | None => ret tt
  end ;;
  e <- the_emulator ;;
  modify (set_EJS_emulator
    (Some (set_settings (<["save-state-location" := "browser"]> (settings e)) e))) ;;
  await (loadCheatCodes (cheat_response a)) ;;
  pending <- gets cheatUpdateTimeout ;;
  match pending with
  | Some i => clearTimeout i
  | None => ret tt
  end ;;
  i <- setTimeout cheatUpdateTask 1000 ;;
  modify (set_cheatUpdateTimeout (Some i)).

(** The callback of the cheat-update timeout. *)
Definition cheatUpdateCallback : Js unit :=
  updateEmulatorCheats ;;
  modify (set_cheatUpdateTimeout None).

(** [window.EJS_onGameStart]. The quick-load and save-and-quit buttons it
    also creates act only when clicked and are left out. *)
Definition onGameStart : Js unit :=
  _ <- setTimeout gameStartTask 10 ;;
  ret tt.

Definition run_task (t : task) (a : GameStartAnswers) : Js unit :=
  match t with
  | gameStartTask => gameStartCallback a
  | cheatUpdateTask => cheatUpdateCallback
  | removeClassTask className icon => emit (classList_remove className icon)
  end.

(** What runs when the browser fires the pending timer [i] of task [t]: the
    timer leaves the table and its callback is called. *)
Definition fire (i : nat) (t : task) (a : GameStartAnswers) : Js unit :=
  clearTimeout i ;;
  run_task t a.

(** ** Runtime bootstrap *)

(** [supportedCores.find((core) => core === props.core) ?? supportedCores[0]]:
    [None] is [undefined], the value of both sides on an empty list. *)
Definition resolve_core (supportedCores : list string) (requested : option string)
    : option string :=
  match List.find (fun c => match requested with
                            | Some r => String.eqb c r
                            | None => false
                            end) supportedCores with
  | Some c => Some c
  | None => head supportedCores
  end.

(** What the page holds when the component is set up: the runtime object (if
    one exists already), the next timer identifier, the document, the
    injected bus and the playing store. *)
Record Page := {
  page_emulator : option Emulator;
  page_nextTimer : nat;
  page_messageElement : bool;
  page_emitter : option (list (string * listener));
  page_playing : bool;
  page_fullScreen : bool;
}.

Definition all_hooks : list hook :=
  [EJS_onLoadSave; EJS_onSaveSave; EJS_onLoadState; EJS_onSaveState; EJS_onGameStart].

Section Player.

(** [getSupportedEJSCores] of [@/utils]: the platform's table of cores. *)
Variable getSupportedEJSCores : string -> list string.

(** The script's top level: the static configuration of the runtime, and the
    assignment of the five hooks. *)
Definition setup (p : Props) (pg : Page) : Session :=
  {| props := p;
     romRef := rom p;
     saveRef := save p;
     cheatUpdateTimeout := None;
     EJS_core := resolve_core (getSupportedEJSCores (platform_slug (rom p))) (core p);
     EJS_gameID := rom_id (rom p);
     EJS_cheats := [];
     EJS_emulator := page_emulator pg;
     EJS_hooks := all_hooks;
     timers := ∅;
     nextTimer := page_nextTimer pg;
     messageElement := page_messageElement pg;
     emitter := page_emitter pg;
     playing := page_playing pg;
     fullScreen := page_fullScreen pg |}.

End Player.

(** ** The event loop *)

(** Everything that can happen to a session, with the answers of the outside
    world to the awaits of the handler it starts. *)
Inductive input :=
| mounted (cheats : response (option (list CheatCode)))
| rom_id_changed (newId : nat) (cheats : response (option (list CheatCode)))
| before_unmount
| runtime_game_start
| runtime_save_state (stateFile screenshotFile : bytes) (uploaded : option nat)
| runtime_load_state
| runtime_save_save (saveFile screenshotFile : bytes) (uploaded : option nat)
| runtime_load_save
| save_selected (sv : SaveSchema) (r : response (option bytes)) (picked : option bytes)
| state_selected (st : StateSchema) (r : response (option bytes)) (picked : option bytes)
| timer_fires (i : nat) (a : GameStartAnswers)
| handler_resumes (n : nat)
| page_changes (e : option Emulator) (element : bool).

(** Which handler a paused computation is the rest of: the callback that
    [window.EJS_onGameStart] defers, or any other. *)
Inductive origin :=
| game_start_callback
| other_handler.

(** The session together with the handlers that are paused at an [await]. *)
Record World := {
  session : Session;
  suspended : list (origin * (Session → progress unit));
}.

Definition boot (s : Session) : World := {| session := s; suspended := [] |}.

(** The event loop calls an async handler: it runs to its end (an exception
    is an unhandled rejection) or to its first [await], where the rest of it
    joins the paused handlers. *)
Definition spawn (o : origin) (m : Js unit) (w : World) : World * list event :=
  match m (session w) with
  | Ended _ s t => ({| session := s; suspended := suspended w |}, t)
  | Paused s t resume =>
      ({| session := s; suspended := suspended w ++ [(o, resume)] |}, t)
  end.

Definition origin_of (t : task) : origin :=
  match t with
  | gameStartTask => game_start_callback
  | _ => other_handler
  end.

(** The runtime calls a hook only if the session assigned it. *)
Definition when_hook (h : hook) (m : Js unit) : Js unit :=
  hs <- gets EJS_hooks ;;
  if bool_decide (h ∈ hs) then m else ret tt.

(** The bus calls a listener only while it is registered. *)
Definition when_listening (name : string) (h : listener) (m : Js unit) : Js unit :=
  em <- gets emitter ;;
  match em with
  | Some l => if bool_decide ((name, h) ∈ l) then m else ret tt
  | None => ret tt
  end.

Definition set_page (e : option Emulator) (element : bool) (s : Session) : Session :=
  {| props := props s; romRef := romRef s; saveRef := saveRef s;
     cheatUpdateTimeout := cheatUpdateTimeout s; EJS_core := EJS_core s;
     EJS_gameID := EJS_gameID s; EJS_cheats := EJS_cheats s;
     EJS_emulator := e; EJS_hooks := EJS_hooks s;
     timers := timers s; nextTimer := nextTimer s;
     messageElement := element; emitter := emitter s;
     playing := playing s; fullScreen := fullScreen s |}.

(** One turn of the event loop. A timer that is not pending (it fired or was
    cleared) does not fire; a paused handler resumes once. *)
Definition step (i : input) (w : World) : World * list event :=
  match i with
  | mounted cheats => spawn other_handler (onMounted cheats) w
  | rom_id_changed newId cheats => spawn other_handler (watch_rom_id newId cheats) w
  | before_unmount => spawn other_handler onBeforeUnmount w
  | runtime_game_start =>
      spawn other_handler (when_hook EJS_onGameStart onGameStart) w
  | runtime_save_state stateFile screenshotFile uploaded =>
      spawn other_handler
        (when_hook EJS_onSaveState (onSaveState stateFile screenshotFile uploaded)) w
  | runtime_load_state => spawn other_handler (when_hook EJS_onLoadState onLoadState) w
  | runtime_save_save saveFile screenshotFile uploaded =>
      spawn other_handler
        (when_hook EJS_onSaveSave (onSaveSave saveFile screenshotFile uploaded)) w
  | runtime_load_save => spawn other_handler (when_hook EJS_onLoadSave onLoadSave) w
  | save_selected sv r picked =>
      spawn other_handler
        (when_listening "saveSelected" loadSave_listener (loadSave sv r picked)) w
  | state_selected st r picked =>
      spawn other_handler
        (when_listening "stateSelected" loadState_listener (loadState st r picked)) w
  | timer_fires i a =>
      match timers (session w) !! i with
      | Some t => spawn (origin_of t) (fire i t a) w
      | None => (w, [])
      end
  | handler_resumes n =>
      match suspended w !! n with
      | Some (o, resume) =>
          spawn o resume {| session := session w; suspended := delete n (suspended w) |}
      | None => (w, [])
      end
  | page_changes e element => spawn other_handler (modify (set_page e element)) w
  end.

(** A run of the event loop: the final world and everything that was called. *)
Fixpoint run (inputs : list input) (w : World) : World * list event :=
  match inputs with
  | [] => (w, [])
  | i :: rest =>
      let r := step i w in
      let r' := run rest r.1 in
      (r'.1, r.2 ++ r'.2)
  end.

(** The calls on the runtime's cheat table among a list of calls. *)
Definition is_cheat_table_call (e : event) : bool :=
  match e with
  | call_resetCheat | call_setCheat _ _ _ => true
  | _ => false
  end.

Definition cheat_table_calls (t : list event) : list event :=
  List.filter is_cheat_table_call t.

(** The native load and file-selection calls among a list of calls. *)
Definition is_pull_call (e : event) : bool :=
  match e with
  | call_loadSave _ | call_loadState _ | call_selectFile => true
  | _ => false
  end.

Definition pull_calls (t : list event) : list event := List.filter is_pull_call t.

(** The notifications among a list of calls. *)
Definition is_notification (e : event) : bool :=
  match e with
  | call_displayMessage _ _ => true
  | _ => false
  end.

Definition notifications (t : list event) : list event :=
  List.filter is_notification t.

(** ** Assertions on sessions *)

(** Timer [i] is a pending deferred cheat update. *)
Definition cheat_pending (s : Session) (i : nat) : Prop :=
  timers s !! i = Some cheatUpdateTask.

(** A game-start callback is still waiting for its 10 ms. *)
Definition game_start_pending (s : Session) (i : nat) : Prop :=
  timers s !! i = Some gameStartTask.

(** Timer identifiers are handed out in increasing order. *)
Definition bounded (s : Session) : Prop :=
  ∀ i, is_Some (timers s !! i) → i < nextTimer s.

(** Every pending deferred cheat update is the one [cheatUpdateTimeout] holds. *)
Definition sync_inv (s : Session) : Prop :=
  ∀ i, cheat_pending s i → cheatUpdateTimeout s = Some i.

(** No deferred cheat update is pending. *)
Definition idle (s : Session) : Prop :=
  ∀ i, ¬ cheat_pending s i.

Definition is_removeClass (t : task) : Prop :=
  ∃ className icon, t = removeClassTask className icon.

(** No deferred cheat update and no game-start callback is pending. *)
Definition dormant (s : Session) : Prop :=
  ∀ i t, timers s !! i = Some t → is_removeClass t.

(** How many times a listener is on the bus. *)
Definition registrations (x : string * listener) (l : list (string * listener)) : nat :=
  length (filter (λ y, y = x) l).

(** Each of the component's two listeners is on the bus at most once. *)
Definition registered_once (s : Session) : Prop :=
  ∀ l, emitter s = Some l →
    registrations ("saveSelected", loadSave_listener) l ≤ 1 ∧
    registrations ("stateSelected", loadState_listener) l ≤ 1.

(** ** Relations between the session before and after a computation *)

(** A relation between the session a handler starts from (or resumes from),
    the session it leaves when it ends (or pauses), and the calls it makes in
    between. A handler satisfies it when each of its stretches between two
    awaits does, whatever the session it resumes from; [may_pause] says
    whether it may await at all. *)
Fixpoint obeys {A} (may_pause : Prop) (R : Session → Session → list event → Prop)
    (s0 : Session) (p : progress A) : Prop :=
  match p with
  | Ended _ s t => R s0 s t
  | Paused s t resume =>
      may_pause ∧ R s0 s t ∧ ∀ s', obeys may_pause R s' (resume s')
  end.

Definition respects {A} (may_pause : Prop)
    (R : Session → Session → list event → Prop) (m : Js A) : Prop :=
  ∀ s, obeys may_pause R s (m s).

(** A relation that every part of a computation satisfies is satisfied by
    the whole when it is reflexive and composes along the calls made. *)
Class Framing (R : Session → Session → list event → Prop) := {
  framing_refl : ∀ s, R s s [];
  framing_trans : ∀ s1 s2 s3 t1 t2,
    R s1 s2 t1 → R s2 s3 t2 → R s1 s3 (t1 ++ t2);
}.

(** The relation that says nothing: a handler that satisfies it without
    pausing has no [await] on its way. *)
Definition anything (s s' : Session) (t : list event) : Prop := True.

Definition atomic {A} (m : Js A) : Prop := respects False anything m.

(** No call on the runtime's cheat table. *)
Definition silent (s s' : Session) (t : list event) : Prop :=
  cheat_table_calls t = [].

(** Pending timers are never replaced and cleared ones never come back. *)
Definition grows (s s' : Session) (t : list event) : Prop :=
  bounded s →
  bounded s' ∧ nextTimer s ≤ nextTimer s' ∧
  ∀ i, i < nextTimer s → timers s !! i = None → timers s' !! i = None.

(** An assertion on sessions that, once true, stays true. *)
Definition holds (P : Session → Prop) (s s' : Session) (t : list event) : Prop :=
  P s → P s'.

(** A relation that does not look at the calls made. *)
Class Traceless (R : Session → Session → list event → Prop) := {
  traceless : ∀ s s' t t', R s s' t → R s s' t';
}.

(** A state update that touches neither the timer table nor the handle of
    the deferred cheat update. *)
Definition keeps (f : Session → Session) : Prop :=
  ∀ s, timers (f s) = timers s ∧ nextTimer (f s) = nextTimer s ∧
       cheatUpdateTimeout (f s) = cheatUpdateTimeout s.

(** What a relation must allow for the handlers that only talk to the
    backend, the console and the user to satisfy it: calls other than those
    on the cheat table, updates that keep the timers, and the timer that
    undecorates the message element. *)
Class Allows (R : Session → Session → list event → Prop) := {
  allows_emit : ∀ e s, is_cheat_table_call e = false → R s s [e];
  allows_modify : ∀ f s, keeps f → R s (f s) [];
  allows_removeClass : ∀ className icon delay s,
    R s (final (setTimeout (removeClassTask className icon) delay s)) [];
}.

(** A relation that, in addition, allows any use of the timers and of the
    handle of the deferred cheat update. *)
Class Permissive (R : Session → Session → list event → Prop) := {
  permits_setTimeout : ∀ t delay s, R s (final (setTimeout t delay s)) [];
  permits_clearTimeout : ∀ i s, R s (final (clearTimeout i s)) [];
  permits_handle : ∀ v s, R s (set_cheatUpdateTimeout v s) [];
}.

(** A paused handler that satisfies every relation of a kind: [tame] ones
    may use the timers, [quiet] ones may not. *)
Definition tame (k : Js unit) : Prop :=
  ∀ R, Framing R → Allows R → Permissive R → respects True R k.

Definition quiet (k : Js unit) : Prop :=
  ∀ R, Framing R → Allows R → respects True R k.

(** What is left of a handler after its first pause, if it pauses. *)
Definition tail {A} (Q : Js A → Prop) (p : progress A) : Prop :=
  match p with
  | Ended _ _ _ => True
  | Paused _ _ resume => Q resume
  end.

(** What is true of the handlers paused in any world the event loop can
    reach: each keeps [sync_inv] and is tame, and all but game-start
    callbacks are quiet. *)
Definition handler_ok (o : origin) (k : Js unit) : Prop :=
  respects True (holds sync_inv) k ∧ tame k ∧ (o = other_handler → quiet k).

Definition suspended_ok (w : World) : Prop :=
  ∀ o k, (o, k) ∈ suspended w → handler_ok o k.

Definition world_inv (w : World) : Prop :=
  sync_inv (session w) ∧ bounded (session w) ∧ suspended_ok w.

(** No game-start callback is on its way: none waits for its 10 ms and none
    is paused at an [await]. *)
Definition no_game_start (w : World) : Prop :=
  (∀ i, ¬ game_start_pending (session w) i) ∧
  (∀ k, (game_start_callback, k) ∉ suspended w).

(** The turn [i] of the event loop in the world [w] calls the handler [m]. *)
Definition starts (i : input) (w : World) (o : origin) (m : Js unit) : Prop :=
  ∃ w', step i w = spawn o m w' ∧ session w' = session w ∧
        ∀ x, x ∈ suspended w' → x ∈ suspended w.

(** What the proofs need of a handler [m] that the turn [i] starts in the
    world [w]: it keeps [sync_inv]; what is left of it after a pause is as
    the paused handlers are; it satisfies every relation that allows the
    timers, as long as it is not a cheat update that fires when the relation
    looks at the calls. *)
Definition well_behaved (i : input) (w : World) (o : origin) (m : Js unit) : Prop :=
  obeys True (holds sync_inv) (session w) (m (session w)) ∧
  tail (handler_ok o) (m (session w)) ∧
  (∀ R, Framing R → Allows R → Permissive R → Traceless R →
        obeys True R (session w) (m (session w))) ∧
  ((∀ k a, i = timer_fires k a → ¬ cheat_pending (session w) k) →
   ∀ R, Framing R → Allows R → Permissive R →
        obeys True R (session w) (m (session w))).

(** A world in which nothing is on its way that could touch the cheat
    table: only message timers are pending and every paused handler is
    quiet. *)
Definition dormant_world (w : World) : Prop :=
  dormant (session w) ∧ ∀ o k, (o, k) ∈ suspended w → quiet k.

(** ** Running a handler through the event loop *)

(** The number of awaits on the way of a handler that nothing interferes with. *)
Fixpoint pauses {A} (p : progress A) : nat :=
  match p with
  | Ended _ _ _ => 0
  | Paused s _ resume => S (pauses (resume s))
  end.

(** What [spawn] makes of a handler in a world where no handler is paused. *)
Definition launched (o : origin) (p : progress unit) : World * list event :=
  match p with
  | Ended _ s t => ({| session := s; suspended := [] |}, t)
  | Paused s t resume => ({| session := s; suspended := [(o, resume)] |}, t)
  end.

(** ** The handle of the deferred cheat update *)

(** [cheatUpdateTimeout] names a timer exactly when that timer is a pending
    deferred cheat update, and timer identifiers are handed out in order. *)
Definition handle_inv (s : Session) : Prop :=
  bounded s ∧ ∀ i, cheatUpdateTimeout s = Some i ↔ cheat_pending s i.

(** ** Game name *)

(** The character class of [INVALID_CHARS_REGEX]. A string is the sequence of
    its UTF-16 code units; the characters here are the code units below 256. *)
Definition INVALID_CHARS : list ascii :=
  ["#"; "<"; "$"; "+"; "%"; ">"; "!"; "`"; "&"; "*"; "'"; "|"; "{"; "}"; "/";
   "\"; "?"; "034"; "="; "@"; ":"; "^"; "013"; "010"]%char.

Definition is_invalid_char (c : ascii) : bool := bool_decide (c ∈ INVALID_CHARS).

(** [s.replace(INVALID_CHARS_REGEX, "")]: with the [g] flag every match goes. *)
Fixpoint remove_invalid_chars (s : string) : string :=
  match s with
  | EmptyString => EmptyString
  | String c s' =>
      if is_invalid_char c then remove_invalid_chars s'
      else String c (remove_invalid_chars s')
  end.

(** The white space and line terminators that [String.prototype.trim]
    strips, among the code units below 256: tab, line feed, vertical tab,
    form feed, carriage return, space and no-break space. *)
Definition is_white_space (c : ascii) : bool :=
  bool_decide (nat_of_ascii c ∈ [9; 10; 11; 12; 13; 32; 160]).

Fixpoint trimStart (s : string) : string :=
  match s with
  | EmptyString => EmptyString
  | String c s' => if is_white_space c then trimStart s' else s
  end.

Fixpoint trimEnd (s : string) : string :=
  match s with
  | EmptyString => EmptyString
  | String c s' =>
      match trimEnd s' with
      | EmptyString => if is_white_space c then EmptyString else String c EmptyString
      | rest => String c rest
      end
  end.

(** [s.trim()]. *)
Definition trim (s : string) : string := trimEnd (trimStart s).

(** [window.EJS_gameName], as the script's top level sets it. *)
Definition EJS_gameName (p : Props) : string :=
  trim (remove_invalid_chars (fs_name_no_tags (rom p))).

(** The first and the last character of a string. *)
Definition first_char (s : string) : option ascii :=
  match s with
  | EmptyString => None
  | String c _ => Some c
  end.

Fixpoint last_char (s : string) : option ascii :=
  match s with
  | EmptyString => None
  | String c EmptyString => Some c
  | String _ s' => last_char s'
  end.

(** A name with none of the invalid characters and no white space at
    either end. *)
Definition valid_game_name (s : string) : Prop :=
  (∀ c, c ∈ list_ascii_of_string s → is_invalid_char c = false) ∧
  (∀ c, first_char s = Some c → is_white_space c = false) ∧
  (∀ c, last_char s = Some c → is_white_space c = false).

(** ** Local storage *)

(** [FirmwareSchema], as far as the component reads it. *)
Record FirmwareSchema := {
  firmware_id : nat;
  firmware_file_name : string;
}.

(** The local-storage bookkeeping at the start of [onMounted]: the chosen
    firmware and core are remembered per platform and the chosen disc per
    ROM; a choice that is null or falsy (the empty string, disc 0) is
    forgotten. [localStorage] maps keys to values; [bios] is [props.bios]. *)
Definition onMounted_localStorage (bios : option FirmwareSchema) (s : Session)
    (localStorage : gmap string string) : gmap string string :=
  let slug := platform_slug (romRef s) in
  let localStorage :=
    match bios with
    | Some b =>
        <[("player:" ++ slug ++ ":bios_id")%string := toString (firmware_id b)]>
          localStorage
    | None => delete ("player:" ++ slug ++ ":bios_id")%string localStorage
    end in
  let localStorage :=
    match core (props s) with
    | Some c =>
        if String.eqb c "" then
          delete ("player:" ++ slug ++ ":core")%string localStorage
        else <[("player:" ++ slug ++ ":core")%string := c]> localStorage
    | None => delete ("player:" ++ slug ++ ":core")%string localStorage
    end in
  match disc (props s) with
  | Some d =>
      if Nat.eqb d 0 then
        delete ("player:" ++ toString (rom_id (romRef s)) ++ ":disc")%string
          localStorage
      else
        <[("player:" ++ toString (rom_id (romRef s)) ++ ":disc")%string
            := toString d]> localStorage
  | None =>
      delete ("player:" ++ toString (rom_id (romRef s)) ++ ":disc")%string
        localStorage
  end.

(** ** Quick load *)

(** [window.EJS_emulator.storage.states.get(key)]: the promise of what the
    store holds under the key when it is asked, [undefined] ([None]) when it
    holds nothing. *)
Definition storage_states_get (suffix : string) : Js (option bytes) :=
  e <- the_emulator ;;
  await (ret (storage_states e !! (getBaseFileName e ++ suffix)%string)).

(** The click handler of the quick-load button that [window.EJS_onGameStart]
    creates. [saveInBrowserSupported] is what the runtime's method of that
    name answers; [loadState_undefined] is what the game manager's
    [loadState] does when it is handed [undefined]; handed a blob it is the
    native load of a state. *)
Definition quickLoadClick (saveInBrowserSupported : bool)
    (loadState_undefined : Js unit) : Js unit :=
  e <- the_emulator ;;
  if bool_decide (settings e !! "save-state-location" = Some "browser")
     && saveInBrowserSupported
  then
    stored <- storage_states_get ".state" ;;
    _ <- the_gameManager ;;
    match stored with
    | Some blob => emit (call_loadState blob)
    | None => loadState_undefined
    end ;;
    displayMessage "Quick load from server" 3000 "msg-info" "mdi-flash"
  else ret tt.

(** ** The cheat table of the ROM details page

    [frontend/src/components/Details/Cheats.vue]: the rows of the table, the
    form for a new cheat, and the handlers that add, edit and delete. Each
    handler sends one request and awaits it; the backend's answer is an
    argument of the handler, and what follows the await runs on the table,
    or on the row, as it is then. *)
Module Cheats.

(** A cheat of the ROM, as the backend returns it. *)
Record Cheat := {
  id : nat;
  name : string;
  code : string;
  description : string;
}.

(** A row: [{...cheat, isEditing, editName, editCode, editDescription}]. *)
Record Row := {
  cheat : Cheat;
  isEditing : bool;
  editName : string;
  editCode : string;
  editDescription : string;
}.

(** The form [newCheat], and the payload of a request. *)
Record Fields := {
  field_name : string;
  field_code : string;
  field_description : string;
}.

Record View := {
  cheats : list Row;
  newCheat : Fields;
}.

(** The calls on [romApi]. *)
Inductive request :=
| addRomCheat (romId : nat) (data : Fields)
| updateRomCheat (romId cheatId : nat) (data : Fields)
| deleteRomCheat (romId cheatId : nat).

(** How far a handler gets in one go: to its end, or to its await, where it
    has sent [req] and [resume] is the rest of it. *)
Inductive progress (V : Type) :=
| Ended (v : V)
| Awaiting (v : V) (req : request) (resume : V → V).
Arguments Ended {V} v.
Arguments Awaiting {V} v req resume.

(** The handler run to its end with nothing happening at its await. *)
Definition settled {V} (p : progress V) : V :=
  match p with
  | Ended v => v
  | Awaiting v _ resume => resume v
  end.

Definition sent {V} (p : progress V) : option request :=
  match p with
  | Ended _ => None
  | Awaiting _ req _ => Some req
  end.

Definition new_row (c : Cheat) : Row :=
  {| cheat := c; isEditing := false; editName := name c; editCode := code c;
     editDescription := description c |}.

Definition empty_fields : Fields :=
  {| field_name := ""; field_code := ""; field_description := "" |}.

(** [ref((props.rom.cheats ?? []).map(...))] and the empty form. *)
Definition setup (rom_cheats : option (list Cheat)) : View :=
  {| cheats := new_row <$> default [] rom_cheats; newCheat := empty_fields |}.

(** [addCheat]. [result] is what [romApi.addRomCheat] settles to; a result
    without an [id], or whose [id] is 0, is falsy. A rejection ends the
    handler and leaves the table as it is. *)
Definition addCheat (romId : nat) (result : response (option Cheat)) (v : View)
    : progress View :=
  if String.eqb (field_name (newCheat v)) "" || String.eqb (field_code (newCheat v)) ""
  then Ended v
  else
    Awaiting v (addRomCheat romId (newCheat v)) (fun v' =>
      match result with
      | Resolved (Some c) =>
          if Nat.eqb (id c) 0 then v'
          else {| cheats := cheats v' ++ [new_row c]; newCheat := empty_fields |}
      | _ => v'
      end).

(** [toggleEdit(cheat)], on the row object. *)
Definition toggleEdit (r : Row) : Row :=
  {| cheat := cheat r; isEditing := negb (isEditing r); editName := editName r;
     editCode := editCode r; editDescription := editDescription r |}.

(** [saveEdit(cheat)], on the row object: the payload is read when the
    handler is called, and written to the row as it is when the request has
    settled. [result] is the truthiness of the answer. *)
Definition saveEdit (romId : nat) (result : response bool) (r : Row) : progress Row :=
  let updated := {| field_name := editName r; field_code := editCode r;
                    field_description := editDescription r |} in
  Awaiting r (updateRomCheat romId (id (cheat r)) updated) (fun r' =>
    match result with
    | Resolved true =>
        {| cheat := {| id := id (cheat r'); name := field_name updated;
                       code := field_code updated;
                       description := field_description updated |};
           isEditing := false; editName := editName r'; editCode := editCode r';
           editDescription := editDescription r' |}
    | _ => r'
    end).

(** [deleteCheat(cheatId)]. [confirmed] is the user's answer to [confirm]. *)
Definition deleteCheat (romId cheatId : nat) (confirmed : bool)
    (success : response bool) (v : View) : progress View :=
  if negb confirmed then Ended v
  else
    Awaiting v (deleteRomCheat romId cheatId) (fun v' =>
      match success with
      | Resolved true =>
          {| cheats := filter (λ c, id (cheat c) ≠ cheatId) (cheats v');
             newCheat := newCheat v' |}
      | _ => v'
      end).

End Cheats.

(** ** Example data *)

Definition infinite_lives : CheatCode :=
  {| id := "1"; name := "Infinite Lives"; code := "SXYIZVSE";
     description := "Never lose a life"; type := "game_genie"; romId := "123" |}.

Definition invincibility : CheatCode :=
  {| id := "2"; name := "Invincibility"; code := "AEKZZZIA";
     description := "Take no damage"; type := "game_genie"; romId := "123" |}.

Definition example_buffer : CheatBuffer :=
  [("Infinite Lives", "SXYIZVSE"); ("Invincibility", "AEKZZZIA")].

Definition example_gameManager : GameManager :=
  {| resetCheat := Native false; setCheat := Native false |}.

Definition example_emulator : Emulator :=
  {| gameManager := Some example_gameManager;
     updateCheatUI := Native false;
     getBaseFileName := "test-rom";
     settings := ∅;
     storage_states := ∅ |}.

Definition example_rom : DetailedRom :=
  {| rom_id := 123; platform_slug := "nes"; fs_name_no_tags := "Super Mario Bros" |}.

Definition example_props : Props :=
  {| rom := example_rom; save := None; state := None; core := Some "nestopia";
     disc := None |}.

Definition example_page : Page :=
  {| page_emulator := Some example_emulator; page_nextTimer := 1;
     page_messageElement := true; page_emitter := Some [];
     page_playing := true; page_fullScreen := true |}.

Definition example_cores (platform : string) : list string :=
  if String.eqb platform "nes" then ["fceumm"; "nestopia"] else [].

(** The session right after the script ran, with a runtime on the page. *)
Definition example_session : Session :=
  setup example_cores example_props example_page.

(** The same page before the runtime exists. *)
Definition example_session_no_runtime : Session :=
  set_EJS_emulator None example_session.

Definition example_save : SaveSchema :=
  {| save_id := 7; save_download_path := "/api/raw/assets/saves/smb.srm" |}.

Definition example_state : StateSchema :=
  {| state_id := 9; state_download_path := "/api/raw/assets/states/smb.state" |}.

Definition example_answers : GameStartAnswers :=
  {| save_response := Resolved None; save_file := None;
     state_response := Resolved None; state_file := None;
     cheat_response := Resolved (Some [infinite_lives; invincibility]) |}.

(** The example session with the two example cheats in its buffer and the
    runtime [e] on the page. *)
Definition example_session_with (e : Emulator) : Session :=
  set_EJS_emulator (Some e) (set_EJS_cheats example_buffer example_session).

(** A runtime whose game manager has no [setCheat], and one whose
    [setCheat] throws. *)
Definition example_emulator_without_setCheat : Emulator :=
  {| gameManager := Some {| resetCheat := Native false; setCheat := Missing |};
     updateCheatUI := Native false;
     getBaseFileName := "test-rom";
     settings := ∅;
     storage_states := ∅ |}.

Definition example_emulator_throwing_setCheat : Emulator :=
  {| gameManager := Some {| resetCheat := Native false; setCheat := Native true |};
     updateCheatUI := Native false;
     getBaseFileName := "test-rom";
     settings := ∅;
     storage_states := ∅ |}.

(** A runtime that keeps states in the browser. *)
Definition example_emulator_browser : Emulator :=
  {| gameManager := Some example_gameManager;
     updateCheatUI := Native false;
     getBaseFileName := "test-rom";
     settings := {["save-state-location" := "browser"]};
     storage_states := ∅ |}.

(** The example session on a bus that another component listens on. *)
Definition example_session_shared_bus : Session :=
  set_emitter (Some [("saveSelected", foreign_listener 0)]) example_session.

(** The example ROM opened with a save to load at game start. *)
Definition example_session_with_save : Session :=
  setup example_cores
    {| rom := example_rom; save := Some example_save; state := None;
       core := Some "nestopia"; disc := None |}
    example_page.

Definition example_firmware : FirmwareSchema :=
  {| firmware_id := 4; firmware_file_name := "disksys.rom" |}.

Definition example_cheat : Cheats.Cheat :=
  {| Cheats.id := 7; Cheats.name := "Infinite Lives"; Cheats.code := "SXYIZVSE";
     Cheats.description := "Never lose a life" |}.

(** The table of a ROM without cheats, with the form filled in. *)
Definition example_view : Cheats.View :=
  {| Cheats.cheats := Cheats.cheats (Cheats.setup None);
     Cheats.newCheat :=
       {| Cheats.field_name := "Infinite Lives"; Cheats.field_code := "SXYIZVSE";
          Cheats.field_description := "" |} |}.

(** * Properties *)

(** ** Cheat source adapter *)

Example formatCheatCodes_two :
  result (formatCheatCodesForEmulatorJS [infinite_lives; invincibility] example_session)
  = Return example_buffer.
Proof. reflexivity. Qed.


(** ** Runtime bootstrap *)

Example resolve_core_supported :
  EJS_core example_session = Some "nestopia".
Proof. reflexivity. Qed.

Example resolve_core_unsupported :
  resolve_core ["fceumm"; "nestopia"] (Some "snes9x") = Some "fceumm".
Proof. reflexivity. Qed.

Lemma find_eqb_elem (l : list string) (r : string) :
  List.find (λ c, String.eqb c r) l = if bool_decide (r ∈ l) then Some r else None.
Proof.
  induction l as [|c l IH]; cbn; [done|].
  destruct (String.eqb_spec c r) as [->|Hne].
  - rewrite bool_decide_eq_true_2; [done | left].
  - rewrite IH. destruct (bool_decide (r ∈ l)) eqn:E.
    + apply bool_decide_eq_true_1 in E.
      rewrite bool_decide_eq_true_2; [done | by right].
    + apply bool_decide_eq_false_1 in E.
      rewrite bool_decide_eq_false_2; [done|].
      intros [?|?]%elem_of_cons; congruence.
Qed.

Lemma find_never (l : list string) : List.find (λ _ : string, false) l = None.
Proof. by induction l. Qed.

(** C8. The script sets [EJS_core] to the requested core when the platform's
    list of supported cores contains it, and to the first core of that list
    (the platform's default) otherwise, also when no core is requested.
    [setup] is a total function: no request makes it fail. *)
Theorem effective_core (getSupportedEJSCores : string → list string)
    (p : Props) (pg : Page) :
  let supported := getSupportedEJSCores (platform_slug (rom p)) in
  EJS_core (setup getSupportedEJSCores p pg) =
    match core p with
    | Some requested =>
        if bool_decide (requested ∈ supported) then Some requested
        else head supported
    | None => head supported
    end.
Proof.
  cbn. unfold resolve_core. destruct (core p) as [r|].
  - rewrite find_eqb_elem. by destruct (bool_decide _).
  - by rewrite find_never.
Qed.

(** ** Composing relations along a handler *)

(** Apply a lemma and let instance search discharge its class premises. *)
Tactic Notation "use" open_constr(lem) := apply lem; try tc_solve.

Section Respects.

Context (may_pause : Prop) (R : Session → Session → list event → Prop)
  `{!Framing R}.

Lemma obeys_prepend {A} (s0 s1 : Session) (t1 : list event) (p : progress A) :
  R s0 s1 t1 → obeys may_pause R s1 p → obeys may_pause R s0 (prepend t1 p).
Proof.
  intros H1. destruct p as [o s t|s t resume]; cbn.
  - intros H2. by eapply framing_trans.
  - intros (Hp & H2 & Hk). split; [done|]. split; [by eapply framing_trans | done].
Qed.

Lemma respects_ret {A} (a : A) : respects may_pause R (ret a).
Proof. intros s. apply framing_refl. Qed.

Lemma respects_throw {A} (e : error) : respects may_pause R (@throw A e).
Proof. intros s. apply framing_refl. Qed.

Lemma respects_suspend {A} : respects may_pause R (@suspend A).
Proof. intros s. apply framing_refl. Qed.

Lemma respects_gets {A} (f : Session → A) : respects may_pause R (gets f).
Proof. intros s. apply framing_refl. Qed.

Lemma obeys_bind {A B} (s0 : Session) (p : progress A) (k : A → Js B) :
  obeys may_pause R s0 p → (∀ a, respects may_pause R (k a)) →
  obeys may_pause R s0 (bind_progress p k).
Proof.
  intros Hp Hk. revert s0 Hp.
  induction p as [[a|e|] s t|s t resume IH]; intros s0 Hp; cbn in *; try done.
  - eapply obeys_prepend; [exact Hp | apply Hk].
  - destruct Hp as (Hpause & H1 & Hrest). repeat split; try done.
    intros s'. apply IH, Hrest.
Qed.

Lemma respects_bind {A B} (m : Js A) (k : A → Js B) :
  respects may_pause R m → (∀ a, respects may_pause R (k a)) →
  respects may_pause R (bind m k).
Proof. intros Hm Hk s. apply obeys_bind; [apply Hm | done]. Qed.

Lemma obeys_catch {A} (s0 : Session) (p : progress A) (h : error → Js A) :
  obeys may_pause R s0 p → (∀ e, respects may_pause R (h e)) →
  obeys may_pause R s0 (catch_progress p h).
Proof.
  intros Hp Hh. revert s0 Hp.
  induction p as [[a|e|] s t|s t resume IH]; intros s0 Hp; cbn in *; try done.
  - eapply obeys_prepend; [exact Hp | apply Hh].
  - destruct Hp as (Hpause & H1 & Hrest). repeat split; try done.
    intros s'. apply IH, Hrest.
Qed.

Lemma respects_try_catch {A} (m : Js A) (h : error → Js A) :
  respects may_pause R m → (∀ e, respects may_pause R (h e)) →
  respects may_pause R (try_catch m h).
Proof. intros Hm Hh s. apply obeys_catch; [apply Hm | done]. Qed.

Lemma obeys_await {A} (s0 : Session) (p : progress A) :
  may_pause → obeys may_pause R s0 p → obeys may_pause R s0 (await_progress p).
Proof.
  intros Hpause. revert s0.
  induction p as [[a|e|] s t|s t resume IH]; intros s0 Hp; cbn in *; try done.
  - repeat split; try done. intros s'. cbn. apply framing_refl.
  - repeat split; try done. intros s'. cbn. apply framing_refl.
  - destruct Hp as (_ & H1 & Hrest). repeat split; try done.
    intros s'. apply IH, Hrest.
Qed.

Lemma respects_await {A} (m : Js A) :
  may_pause → respects may_pause R m → respects may_pause R (await m).
Proof. intros Hpause Hm s. apply obeys_await; [done | apply Hm]. Qed.

Lemma respects_settle {A} (r : response A) : respects may_pause R (settle r).
Proof. destruct r; [use respects_throw | use respects_ret]. Qed.

Lemma respects_the_emulator : respects may_pause R the_emulator.
Proof. intros s. unfold the_emulator. destruct (EJS_emulator s); apply framing_refl. Qed.

Lemma respects_the_gameManager : respects may_pause R the_gameManager.
Proof.
  use respects_bind; [use respects_the_emulator|].
  intros e. destruct (gameManager e); [use respects_ret | use respects_throw].
Qed.

Lemma respects_forEach_from {A} (l : list A) (f : nat → A → Js unit) (i : nat) :
  (∀ k x, respects may_pause R (f k x)) → respects may_pause R (forEach_from i l f).
Proof.
  intros Hf. revert i. induction l as [|x l IH]; intros i; cbn.
  - use respects_ret.
  - use respects_bind; [apply Hf | intros _; apply IH].
Qed.

(** Run without interference, the handler satisfies the relation as a whole. *)
Lemma obeys_finish {A} (s0 : Session) (p : progress A) :
  obeys may_pause R s0 p → R s0 (final p) (trace p).
Proof.
  revert s0. unfold final, trace.
  induction p as [o s t|s t resume IH]; intros s0 Hp; cbn in *; [done|].
  destruct Hp as (_ & H1 & Hrest). specialize (IH s s (Hrest s)).
  destruct (finish (resume s)) as [[o s'] t']. cbn in *.
  by eapply framing_trans.
Qed.

Lemma respects_finish {A} (m : Js A) (s : Session) :
  respects may_pause R m → R s (final (m s)) (trace (m s)).
Proof. intros Hm. apply obeys_finish, Hm. Qed.

Context `{!Allows R}.

Lemma respects_emit (e : event) :
  is_cheat_table_call e = false → respects may_pause R (emit e).
Proof. intros He s. by apply allows_emit. Qed.

Lemma respects_modify (f : Session → Session) :
  keeps f → respects may_pause R (modify f).
Proof. intros Hf s. by apply allows_modify. Qed.

Lemma respects_call (m : method) (e : event) :
  is_cheat_table_call e = false → respects may_pause R (call m e).
Proof.
  intros He. destruct m as [|[]]; cbn.
  - use respects_throw.
  - use respects_bind; [by use respects_emit | intros _; use respects_throw].
  - by use respects_emit.
Qed.

Context `{!Traceless R}.

Lemma respects_emit_any (e : event) : respects may_pause R (emit e).
Proof. intros s. cbn. eapply traceless, framing_refl. Qed.

Lemma respects_call_any (m : method) (e : event) : respects may_pause R (call m e).
Proof.
  destruct m as [|[]]; cbn.
  - use respects_throw.
  - use respects_bind; [use respects_emit_any | intros _; use respects_throw].
  - use respects_emit_any.
Qed.

End Respects.

(** One step of the decomposition of a handler along its syntax. *)
Ltac frame_step :=
  lazymatch goal with
  | |- respects _ _ (bind _ _) => use respects_bind; [ | intros ? ]
  | |- respects _ _ (try_catch _ _) => use respects_try_catch; [ | intros ? ]
  | |- respects _ _ (await _) => use respects_await; [ done | ]
  | |- respects _ _ (ret _) => use respects_ret
  | |- respects _ _ (throw _) => use respects_throw
  | |- respects _ _ suspend => use respects_suspend
  | |- respects _ _ (gets _) => use respects_gets
  | |- respects _ _ (settle _) => use respects_settle
  | |- respects _ _ the_emulator => use respects_the_emulator
  | |- respects _ _ the_gameManager => use respects_the_gameManager
  | |- respects _ _ (emit _) =>
      first [ use respects_emit; done | use respects_emit_any ]
  | |- respects _ _ (call _ _) =>
      first [ use respects_call; done | use respects_call_any ]
  | |- respects _ _ (forEach_from _ _ _) => use respects_forEach_from; intros ? ?
  | |- respects _ _ (modify _) => use respects_modify; intros ?; done
  | |- respects _ _ (match ?x with _ => _ end) => destruct x
  end.

Create HintDb frame.

Ltac frame := repeat (first [ solve [ eauto with frame ] | frame_step ]).

Section Quiet.

Context (may_pause : Prop) (R : Session → Session → list event → Prop)
  `{!Framing R, !Allows R}.

Lemma respects_displayMessage (message : string) (duration : nat)
    (className icon : string) :
  respects may_pause R (displayMessage message duration className icon).
Proof.
  unfold displayMessage.
  use respects_bind; [use respects_the_emulator | intros _].
  use respects_bind; [by use respects_emit | intros _].
  use respects_bind; [use respects_gets | intros [|]].
  - destruct (String.eqb icon ""); [use respects_throw|].
    use respects_bind; [by use respects_emit | intros _].
    use respects_bind; [| intros _; use respects_ret].
    intros s. exact (allows_removeClass className icon duration s).
  - use respects_ret.
Qed.
Hint Resolve respects_displayMessage : frame.

Lemma respects_formatCheatCodes (l : list CheatCode) :
  respects may_pause R (formatCheatCodesForEmulatorJS l).
Proof. unfold formatCheatCodesForEmulatorJS. frame. Qed.
Hint Resolve respects_formatCheatCodes : frame.

End Quiet.

(** [updateEmulatorCheats] changes nothing that a relation on sessions can see
    beyond what the notifications do, and has no [await]. *)
Lemma respects_updateEmulatorCheats (may_pause : Prop)
    (R : Session → Session → list event → Prop)
    `{!Framing R, !Allows R, !Traceless R} :
  respects may_pause R updateEmulatorCheats.
Proof.
  pose proof (respects_displayMessage may_pause R).
  unfold updateEmulatorCheats. frame.
Qed.

Section Awaiting.

Context (R : Session → Session → list event → Prop) `{!Framing R, !Allows R}.

Hint Resolve respects_displayMessage respects_formatCheatCodes : frame.

Lemma respects_getCheatCodes (romId : nat) (r : response (option (list CheatCode))) :
  respects True R (getCheatCodes romId r).
Proof. unfold getCheatCodes. frame. Qed.
Hint Resolve respects_getCheatCodes : frame.

Lemma respects_fetchCheatCodes (r : response (option (list CheatCode))) :
  respects True R (fetchCheatCodes r).
Proof. unfold fetchCheatCodes. frame. Qed.
Hint Resolve respects_fetchCheatCodes : frame.

Lemma respects_loadCheatCodes (r : response (option (list CheatCode))) :
  respects True R (loadCheatCodes r).
Proof. unfold loadCheatCodes. frame. Qed.
Hint Resolve respects_loadCheatCodes : frame.

Lemma respects_selectFile (picked : option bytes) : respects True R (selectFile picked).
Proof. unfold selectFile. frame. Qed.
Hint Resolve respects_selectFile : frame.

Lemma respects_loadSave (sv : SaveSchema) (r : response (option bytes))
    (picked : option bytes) :
  respects True R (loadSave sv r picked).
Proof. unfold loadSave, loadEmulatorJSSave, arrayBuffer. frame. Qed.
Hint Resolve respects_loadSave : frame.

Lemma respects_loadState (st : StateSchema) (r : response (option bytes))
    (picked : option bytes) :
  respects True R (loadState st r picked).
Proof. unfold loadState, loadEmulatorJSState, arrayBuffer. frame. Qed.
Hint Resolve respects_loadState : frame.

Lemma respects_onLoadSave : respects True R onLoadSave.
Proof. unfold onLoadSave, emitter_emit_rom. frame. Qed.

Lemma respects_onLoadState : respects True R onLoadState.
Proof. unfold onLoadState, emitter_emit_rom. frame. Qed.

Lemma respects_onSaveSave (saveFile screenshotFile : bytes) (uploaded : option nat) :
  respects True R (onSaveSave saveFile screenshotFile uploaded).
Proof. unfold onSaveSave, saveSave. frame. Qed.

Lemma respects_onSaveState (stateFile screenshotFile : bytes) (uploaded : option nat) :
  respects True R (onSaveState stateFile screenshotFile uploaded).
Proof. unfold onSaveState, saveState, storage_states_put. frame. Qed.

Lemma respects_onMounted (r : response (option (list CheatCode))) :
  respects True R (onMounted r).
Proof. unfold onMounted, emitter_on. frame. Qed.

Lemma respects_watch_rom_id (newId : nat) (r : response (option (list CheatCode))) :
  respects True R (watch_rom_id newId r).
Proof. unfold watch_rom_id. frame. Qed.

End Awaiting.

(** ** The relations *)

Lemma cheat_table_calls_app (t1 t2 : list event) :
  cheat_table_calls (t1 ++ t2) = cheat_table_calls t1 ++ cheat_table_calls t2.
Proof. apply List.filter_app. Qed.

#[global] Instance silent_framing : Framing silent.
Proof.
  split; [done|].
  unfold silent. intros s1 s2 s3 t1 t2 H1 H2.
  by rewrite cheat_table_calls_app, H1, H2.
Qed.

#[global] Instance silent_allows : Allows silent.
Proof.
  split; try done.
  unfold silent. intros e s He. cbn. by rewrite He.
Qed.

Lemma bounded_setTimeout (t : task) (delay : nat) (s : Session) :
  bounded s → bounded (final (setTimeout t delay s)).
Proof.
  intros Hb i. cbn. intros [x Hx].
  destruct (decide (i = nextTimer s)) as [->|Hne]; [lia|].
  rewrite lookup_insert_ne in Hx by done.
  specialize (Hb i (ex_intro _ x Hx)). lia.
Qed.

Lemma bounded_fresh (s : Session) (i : nat) :
  bounded s → nextTimer s ≤ i → timers s !! i = None.
Proof.
  intros Hb Hi. destruct (timers s !! i) eqn:E; [|done].
  specialize (Hb i (ex_intro _ _ E)). lia.
Qed.

#[global] Instance grows_framing : Framing grows.
Proof.
  split.
  - intros s Hb. auto.
  - intros s1 s2 s3 t1 t2 H1 H2 Hb.
    destruct (H1 Hb) as (Hb2 & Hle1 & Hgone1).
    destruct (H2 Hb2) as (Hb3 & Hle2 & Hgone2).
    split; [done|]. split; [lia|].
    intros i Hi Hnone. apply Hgone2; [lia|]. by apply Hgone1.
Qed.

#[global] Instance grows_allows : Allows grows.
Proof.
  split.
  - intros e s _ Hb. auto.
  - intros f s Hf Hb. destruct (Hf s) as (Ht & Hn & _).
    unfold bounded. rewrite Ht, Hn. auto.
  - intros c ic d s Hb. split; [by apply bounded_setTimeout|].
    cbn. split; [lia|].
    intros i Hi Hnone. rewrite lookup_insert_ne by lia. done.
Qed.

#[global] Instance anything_framing : Framing anything.
Proof. by split. Qed.

#[global] Instance anything_allows : Allows anything.
Proof. by split. Qed.

#[global] Instance anything_traceless : Traceless anything.
Proof. by split. Qed.

#[global] Instance anything_permissive : Permissive anything.
Proof. by split. Qed.

(** A handler without [await] on its way ends in one go. *)
Lemma atomic_ended {A} (m : Js A) (s : Session) :
  atomic m → ∃ o s' t, m s = Ended o s' t.
Proof.
  intros Hm. specialize (Hm s). destruct (m s) as [o s' t|s' t resume]; [eauto|].
  by destruct Hm.
Qed.

Lemma atomic_updateEmulatorCheats : atomic updateEmulatorCheats.
Proof. apply (respects_updateEmulatorCheats False anything). Qed.

(** ** Notifications *)

(** With a runtime on the page and a non-empty icon, a notification is shown
    and the handler goes on. *)
Lemma displayMessage_run (message : string) (duration : nat)
    (className icon : string) (s : Session) (e : Emulator) :
  EJS_emulator s = Some e →
  String.eqb icon "" = false →
  displayMessage message duration className icon s
  = Ended (Return tt)
      (if messageElement s
       then set_timers (<[nextTimer s := removeClassTask className icon]> (timers s))
              (S (nextTimer s)) s
       else s)
      (call_displayMessage message duration
         :: if messageElement s then [classList_add className icon] else []).
Proof.
  intros He Hicon.
  unfold displayMessage, bind, the_emulator, emit, gets. rewrite He. cbn.
  destruct (messageElement s); [rewrite Hicon|]; reflexivity.
Qed.

(** Without a runtime there is nothing to show the notification: reading
    [window.EJS_emulator.displayMessage] throws. *)
Lemma displayMessage_no_runtime (message : string) (duration : nat)
    (className icon : string) (s : Session) :
  EJS_emulator s = None →
  displayMessage message duration className icon s = Ended (Throw TypeError) s [].
Proof.
  intros He. unfold displayMessage, bind, the_emulator. by rewrite He.
Qed.

(** ** Direct update of the cheat table *)

Lemma forEach_setCheat (cheats : list EmulatorCheat) (i : nat) (s : Session) :
  forEach_from i cheats (λ index cheat,
    call (Native false) (call_setCheat index (checked cheat) (cheat_code cheat))) s
  = Ended (Return tt) s
      (imap (λ k cheat, call_setCheat (i + k) (checked cheat) (cheat_code cheat)) cheats).
Proof.
  revert i. induction cheats as [|c l IH]; intros i; [done|].
  cbn [forEach_from]. unfold bind. cbn [call emit bind_progress].
  rewrite IH. cbn. rewrite Nat.add_0_r. do 2 f_equal.
  apply imap_ext. intros k x _. cbn. f_equal. lia.
Qed.

Lemma cheat_table_calls_cons (e : event) (t : list event) :
  cheat_table_calls (e :: t)
  = if is_cheat_table_call e then e :: cheat_table_calls t else cheat_table_calls t.
Proof. reflexivity. Qed.

Lemma cheat_table_calls_setCheat (buffer : CheatBuffer) (t : list event) :
  cheat_table_calls
    (imap (λ k cheat, call_setCheat k (checked cheat) (cheat_code cheat))
       (map (λ '(d, c), {| desc := d; cheat_code := c; checked := false |}) buffer)
     ++ t)
  = imap (λ index '(_, code), call_setCheat index false code) buffer
    ++ cheat_table_calls t.
Proof.
  rewrite cheat_table_calls_app. f_equal.
  change (map ?f buffer) with (f <$> buffer). rewrite imap_fmap.
  assert (∀ (f : nat → nat),
    cheat_table_calls (imap (λ k '(_, c), call_setCheat (f k) false c) buffer)
    = imap (λ k '(_, c), call_setCheat (f k) false c) buffer) as H.
  { induction buffer as [|[d c] l IH]; intros f; [done|].
    cbn. f_equal. apply (IH (f ∘ S)). }
  etransitivity; [|apply (H (λ k, k))].
  f_equal. apply imap_ext. by intros k [d c] _.
Qed.

Example updateEmulatorCheats_example_trace :
  trace (updateEmulatorCheats (set_EJS_cheats example_buffer example_session))
  = [console_log "Updating emulator cheats directly";
     call_resetCheat;
     call_resetCheat;
     call_setCheat 0 false "SXYIZVSE";
     call_setCheat 1 false "AEKZZZIA";
     call_updateCheatUI;
     console_log "Cheat UI updated successfully"].
Proof. reflexivity. Qed.

(** C2, as stated, fails: on the buffer of the two example cheats, with a
    runtime whose cheat methods work, the calls on the cheat table are two
    resets followed by the two [setCheat] calls, not one reset followed by
    them. *)
Lemma updateEmulatorCheats_resets_twice :
  cheat_table_calls
    (trace (updateEmulatorCheats (set_EJS_cheats example_buffer example_session)))
  = [call_resetCheat; call_resetCheat;
     call_setCheat 0 false "SXYIZVSE"; call_setCheat 1 false "AEKZZZIA"]
  ∧ cheat_table_calls
      (trace (updateEmulatorCheats (set_EJS_cheats example_buffer example_session)))
    ≠ [call_resetCheat;
       call_setCheat 0 false "SXYIZVSE"; call_setCheat 1 false "AEKZZZIA"].
Proof. split; [reflexivity | discriminate]. Qed.

(** C2, amended. When the runtime has a game manager whose [resetCheat] and
    [setCheat] are functions that return, [updateEmulatorCheats] calls
    [resetCheat] twice and then [setCheat(index, false, code)] once per entry
    of the buffer, in buffer order, with the indices 0, 1, 2, ...; these are
    all its calls on the cheat table. *)
Theorem updateEmulatorCheats_calls (s : Session) (e : Emulator) (gm : GameManager) :
  EJS_emulator s = Some e →
  gameManager e = Some gm →
  resetCheat gm = Native false →
  setCheat gm = Native false →
  cheat_table_calls (trace (updateEmulatorCheats s))
  = [call_resetCheat; call_resetCheat]
    ++ imap (λ index '(_, code), call_setCheat index false code) (EJS_cheats s).
Proof.
  intros He Hgm Hreset Hset.
  destruct s as [? ? ? ? ? ? buffer ? ? ? ? element ? ? ?]; cbn in He; subst.
  destruct e as [? ui ? ? ?]; cbn in Hgm; subst.
  destruct gm; cbn in Hreset, Hset; subst.
  unfold updateEmulatorCheats, bind, try_catch, trace.
  cbn -[imap cheat_table_calls forEach_from].
  rewrite forEach_setCheat.
  destruct ui as [|[]], element; cbn -[imap cheat_table_calls];
    rewrite !cheat_table_calls_cons; cbn [is_cheat_table_call];
    rewrite <- ?app_assoc, cheat_table_calls_setCheat; cbn; by rewrite app_nil_r.
Qed.

(** The example of C2, with a runtime whose cheat methods work. *)
Lemma updateEmulatorCheats_calls_witness :
  cheat_table_calls
    (trace (updateEmulatorCheats (set_EJS_cheats example_buffer example_session)))
  = [call_resetCheat; call_resetCheat]
    ++ imap (λ index '(_, code), call_setCheat index false code) example_buffer.
Proof.
  apply (updateEmulatorCheats_calls
           (set_EJS_cheats example_buffer example_session)
           example_emulator example_gameManager); reflexivity.
Defined.

(** ** Cheat fetch *)

Lemma fetchCheatCodes_resolved (data : option (list CheatCode)) (s : Session) :
  finish (fetchCheatCodes (Resolved data) s)
  = (Return (match data with Some l => l | None => [] end), s,
     [api_getCheatCodes (rom_id (romRef s)); console_log "Fetched cheat codes:"]).
Proof. reflexivity. Qed.

Lemma fetchCheatCodes_rejected (s : Session) (e : Emulator) :
  EJS_emulator s = Some e →
  finish (fetchCheatCodes Rejected s)
  = (Return [],
     if messageElement s
     then set_timers
            (<[nextTimer s := removeClassTask "msg-error" "mdi-alert-circle-outline"]>
               (timers s))
            (S (nextTimer s)) s
     else s,
     [api_getCheatCodes (rom_id (romRef s));
      console_error
        ("Failed to get cheat codes for ROM " ++ toString (rom_id (romRef s)) ++ ":")%string;
      console_error "Error fetching cheat codes:";
      call_displayMessage "Failed to fetch cheat codes from server" 4000]
     ++ if messageElement s
        then [classList_add "msg-error" "mdi-alert-circle-outline"] else []).
Proof.
  intros He.
  destruct s as [? ? ? ? ? ? ? ? ? ? ? element ? ? ?]; cbn in He; subst.
  by destruct element.
Qed.

(** With a runtime on the page the wrapper always returns a list, and the
    empty one when the request is rejected or the body is missing. *)
Lemma fetchCheatCodes_total_with_runtime
    (r : response (option (list CheatCode))) (s : Session) (e : Emulator) :
  EJS_emulator s = Some e →
  ∃ l, result (fetchCheatCodes r s) = Return l ∧
       (r = Rejected ∨ r = Resolved None → l = []).
Proof.
  intros He. unfold result. destruct r as [|data].
  - rewrite (fetchCheatCodes_rejected s e He). eauto.
  - rewrite fetchCheatCodes_resolved. eexists; split; [done|].
    intros [?|[= ->]]; done.
Qed.

(** C10: the code at the failing input. Before the runtime exists, a rejected
    request makes [fetchCheatCodes] throw: the notification in its [catch]
    reads a property of the undefined [window.EJS_emulator]. *)
Lemma fetchCheatCodes_throws_without_runtime :
  result (fetchCheatCodes Rejected example_session_no_runtime) = Throw TypeError.
Proof. reflexivity. Qed.

(** C6: the code at the failing input. The component is mounted before the
    runtime exists and the cheat request is rejected. [loadCheatCodes] does
    not recover: the notification in the [catch] of [fetchCheatCodes] throws
    as above, the [catch] of [loadCheatCodes] logs that and throws in its own
    notification, so [loadCheatCodes] throws, with three errors logged and no
    notification shown; [onMounted], which awaits it, ends there and
    registers no listener. *)
Lemma cheat_fetch_failure_without_runtime :
  let r := loadCheatCodes Rejected example_session_no_runtime in
  result r = Throw TypeError ∧
  trace r = [api_getCheatCodes 123;
             console_error "Failed to get cheat codes for ROM 123:";
             console_error "Error fetching cheat codes:";
             console_error "Error loading cheat codes:"] ∧
  notifications (trace r) = [] ∧
  result (onMounted Rejected example_session_no_runtime) = Throw TypeError ∧
  emitter (final (onMounted Rejected example_session_no_runtime)) = Some [].
Proof. repeat split; reflexivity. Qed.



(** ** Persistence bridge: pull *)

Example loadSave_request_path :
  trace (loadSave example_save (Resolved (Some [x2a])) None example_session)
  = [api_get "/raw/assets/saves/smb.srm";
     call_loadSave [x2a];
     call_displayMessage "Save loaded from server" 3000;
     classList_add "msg-info" "mdi-cloud-download-outline"].
Proof. reflexivity. Qed.

(** C5, as stated, fails: a response whose body is an empty buffer (zero
    bytes) is still a body, so the save and the state are loaded from it: the
    native load is called with the empty blob and the file prompt is not
    shown. *)
Lemma pull_loads_empty_buffer :
  pull_calls (trace (loadSave example_save (Resolved (Some [])) (Some [x2a])
                       example_session))
    = [call_loadSave []] ∧
  pull_calls (trace (loadState example_state (Resolved (Some [])) (Some [x2a])
                       example_session))
    = [call_loadState []].
Proof. split; reflexivity. Qed.

(** C5, amended. With the runtime on the page, and the pull run to its end:
    when the response has no body (null or undefined), the pull asks the user
    for a file and calls the native load only with the bytes of the file
    picked (and not at all while no file is picked); when the response has a
    body, of any length, that body is handed to the native load and the file
    prompt is not shown. *)
Theorem pull_falls_back_without_body (sv : SaveSchema) (st : StateSchema)
    (picked : option bytes) (s : Session) (e : Emulator) :
  EJS_emulator s = Some e →
  pull_calls (trace (loadSave sv (Resolved None) picked s))
    = call_selectFile :: match picked with
                         | Some file => [call_loadSave file]
                         | None => []
                         end ∧
  pull_calls (trace (loadState st (Resolved None) picked s))
    = call_selectFile :: match picked with
                         | Some file => [call_loadState file]
                         | None => []
                         end ∧
  (∀ d, pull_calls (trace (loadSave sv (Resolved (Some d)) picked s))
          = [call_loadSave d]) ∧
  (∀ d, pull_calls (trace (loadState st (Resolved (Some d)) picked s))
          = [call_loadState d]).
Proof.
  intros He.
  destruct s as [? ? ? ? ? ? ? ? ? ? ? element ? ? ?]; cbn in He; subst.
  repeat split; try intros d; destruct picked, element; reflexivity.
Qed.

(** A pull on the example session, where the user picks a one-byte file. *)
Lemma pull_falls_back_without_body_witness :
  pull_calls (trace (loadSave example_save (Resolved None) (Some [x2a])
                       example_session))
    = [call_selectFile; call_loadSave [x2a]].
Proof.
  exact (proj1 (pull_falls_back_without_body example_save example_state
                  (Some [x2a]) example_session example_emulator eq_refl)).
Defined.

(** ** Persistence bridge: push *)

(** X28. With the runtime on the page, every push of a state that the
    runtime asks for, run to its end, hands the blob and the screenshot to
    the upload for the current ROM and then writes the blob into the
    runtime's browser-local state store under the runtime's base file name
    followed by ".state", whether the upload gave a record or nothing:
    afterwards the store holds the blob under that key. *)
Theorem state_push_writes_local_copy (stateFile screenshotFile : bytes)
    (uploaded : option nat) (s : Session) (e : Emulator) :
  EJS_emulator s = Some e →
  let r := onSaveState stateFile screenshotFile uploaded s in
  (∃ e', EJS_emulator (final r) = Some e' ∧
         storage_states e' !! (getBaseFileName e ++ ".state")%string = Some stateFile) ∧
  upload_state (rom_id (romRef s)) stateFile screenshotFile ∈ trace r.
Proof.
  intros He.
  destruct s as [? ? ? ? ? ? ? ? ? ? ? element ? ? ?]; cbn in He; subst.
  cbn zeta. split.
  - exists (set_storage_states
              (<[(getBaseFileName e ++ ".state")%string := stateFile]> (storage_states e)) e).
    split; [|apply lookup_insert_eq].
    destruct uploaded, element; reflexivity.
  - destruct uploaded, element; cbn; left.
Qed.

(** A state push on the example session whose upload fails. *)
Lemma state_push_writes_local_copy_witness :
  ∃ e', EJS_emulator
          (final (onSaveState [x01; x02] [xff] None example_session)) = Some e' ∧
        storage_states e' !! "test-rom.state" = Some [x01; x02].
Proof.
  exact (proj1 (state_push_writes_local_copy [x01; x02] [xff] None
                  example_session example_emulator eq_refl)).
Defined.

(** ** Teardown *)

Lemma registrations_remove_first (x : string * listener) (l : list (string * listener)) :
  registrations x (remove_first x l) = pred (registrations x l).
Proof.
  unfold registrations. induction l as [|y l IH]; [done|]. cbn [remove_first].
  destruct (decide (x = y)) as [->|Hne].
  - by rewrite filter_cons_True.
  - rewrite !filter_cons_False by congruence. done.
Qed.

Lemma registrations_remove_other (x y : string * listener) (l : list (string * listener)) :
  x ≠ y → registrations y (remove_first x l) = registrations y l.
Proof.
  intros Hxy. unfold registrations. induction l as [|z l IH]; [done|].
  cbn [remove_first].
  destruct (decide (x = z)) as [->|Hne].
  - by rewrite filter_cons_False by congruence.
  - destruct (decide (z = y)) as [->|Hzy].
    + rewrite !filter_cons_True by done. cbn. by rewrite IH.
    + by rewrite !filter_cons_False by done.
Qed.

Lemma registrations_zero (x : string * listener) (l : list (string * listener)) :
  registrations x l = 0 ↔ x ∉ l.
Proof.
  unfold registrations. induction l as [|y l IH].
  - split; [intros _; apply not_elem_of_nil | done].
  - rewrite not_elem_of_cons. destruct (decide (y = x)) as [->|Hne].
    + rewrite filter_cons_True by done. cbn. split; [done | intros [? _]; done].
    + rewrite filter_cons_False by done. rewrite IH. split; [|tauto].
      intros ?. split; [congruence | done].
Qed.

Lemma remove_first_absent (x : string * listener) (l : list (string * listener)) :
  x ∉ l → remove_first x l = l.
Proof.
  induction l as [|y l IH]; [done|]. rewrite not_elem_of_cons. intros [Hne Hl].
  cbn. rewrite decide_False by done. by rewrite IH.
Qed.

Example teardown_after_mount :
  let s := final (onMounted (Resolved None) example_session) in
  emitter s = Some [("saveSelected", loadSave_listener);
                    ("stateSelected", loadState_listener)] ∧
  emitter (final (onBeforeUnmount s)) = Some [].
Proof. split; reflexivity. Qed.

(** C9, as stated, fails: the five hooks the session assigned on [window]
    are still assigned after the teardown, and the runtime can still start
    the game-start handler through them. *)
Lemma teardown_keeps_hooks :
  let s := final (onBeforeUnmount (final (onMounted (Resolved None) example_session))) in
  EJS_hooks s = all_hooks ∧
  timers (session (step runtime_game_start (boot s)).1) !! 1 = Some gameStartTask.
Proof. split; reflexivity. Qed.

(** C9, amended. [onBeforeUnmount] never throws; it clears the pending cheat
    update and its handle, sets the playing and fullscreen flags to false and
    leaves the hooks on [window] assigned. When the component's two bus
    listeners are registered at most once (one mount), it removes both, and
    running it a second time returns again and leaves the session exactly as
    the first run left it. *)
Theorem onBeforeUnmount_teardown (s : Session) :
  registered_once s →
  let r := onBeforeUnmount s in
  result r = Return tt ∧
  cheatUpdateTimeout (final r) = None ∧
  (∀ i, cheatUpdateTimeout s = Some i → timers (final r) !! i = None) ∧
  playing (final r) = false ∧
  fullScreen (final r) = false ∧
  EJS_hooks (final r) = EJS_hooks s ∧
  (∀ l, emitter (final r) = Some l →
        (("saveSelected", loadSave_listener) ∉ l) ∧
        (("stateSelected", loadState_listener) ∉ l)) ∧
  result (onBeforeUnmount (final r)) = Return tt ∧
  final (onBeforeUnmount (final r)) = final r.
Proof.
  intros Honce. cbn zeta.
  assert (Hgone : ∀ l, emitter s = Some l →
    (("saveSelected", loadSave_listener)
       ∉ remove_first ("stateSelected", loadState_listener)
           (remove_first ("saveSelected", loadSave_listener) l)) ∧
    (("stateSelected", loadState_listener)
       ∉ remove_first ("stateSelected", loadState_listener)
           (remove_first ("saveSelected", loadSave_listener) l))).
  { intros l Hl. destruct (Honce l Hl) as [Hsave Hstate].
    rewrite <- !registrations_zero.
    rewrite registrations_remove_other by done.
    rewrite !registrations_remove_first.
    rewrite registrations_remove_other by done. lia. }
  destruct s as [? ? ? pending ? ? ? ? ? ? ? ? bus ? ?]; cbn in Hgone.
  destruct bus as [l|].
  - destruct (Hgone l eq_refl) as [H1 H2].
    destruct pending as [i|]; cbn;
      rewrite ?(remove_first_absent _ _ H1), ?(remove_first_absent _ _ H2);
      repeat split; try done;
      try (by simplify_eq);
      intros ? [= <-]; apply lookup_delete_eq.
  - destruct pending as [i|]; cbn;
      repeat split; try done; intros ? [= <-]; apply lookup_delete_eq.
Qed.

(** Teardown, and teardown again, of the mounted example session. *)
Lemma onBeforeUnmount_teardown_witness :
  let s := final (onMounted (Resolved None) example_session) in
  final (onBeforeUnmount (final (onBeforeUnmount s))) = final (onBeforeUnmount s).
Proof.
  refine (proj2 (proj2 (proj2 (proj2 (proj2 (proj2 (proj2 (proj2
    (onBeforeUnmount_teardown (final (onMounted (Resolved None) example_session)) _))))))))).
  intros l [= <-]. split; vm_compute; lia.
Defined.

(** ** Handlers that use the timers *)

#[global] Instance holds_framing (P : Session → Prop) : Framing (holds P).
Proof. split; unfold holds; auto. Qed.

#[global] Instance holds_traceless (P : Session → Prop) : Traceless (holds P).
Proof. split. unfold holds. auto. Qed.

#[global] Instance grows_traceless : Traceless grows.
Proof. split. unfold grows. auto. Qed.

#[global] Instance silent_permissive : Permissive silent.
Proof. split; done. Qed.

#[global] Instance grows_permissive : Permissive grows.
Proof.
  split.
  - intros t d s Hb. split; [by apply bounded_setTimeout|].
    cbn. split; [lia|]. intros i Hi Hnone. by rewrite lookup_insert_ne by lia.
  - intros i s Hb. cbn. split; [|split; [lia|]].
    + intros j [x Hx]. apply Hb. exists x.
      cbn in Hx. apply lookup_delete_Some in Hx. tauto.
    + intros j _ Hnone. destruct (decide (i = j)) as [->|Hne].
      * apply lookup_delete_eq.
      * by rewrite lookup_delete_ne.
  - intros v s Hb. auto.
Qed.

Section Timers.

Context (may_pause : Prop) (R : Session → Session → list event → Prop)
  `{!Framing R, !Allows R, !Permissive R}.

Lemma respects_setTimeout (t : task) (delay : nat) :
  respects may_pause R (setTimeout t delay).
Proof. intros s. exact (permits_setTimeout t delay s). Qed.

Lemma respects_clearTimeout (i : nat) : respects may_pause R (clearTimeout i).
Proof. intros s. exact (permits_clearTimeout i s). Qed.

Lemma respects_set_handle (v : option nat) :
  respects may_pause R (modify (set_cheatUpdateTimeout v)).
Proof. intros s. exact (permits_handle v s). Qed.

Hint Resolve respects_setTimeout respects_clearTimeout respects_set_handle : frame.

Lemma respects_onGameStart : respects may_pause R onGameStart.
Proof. unfold onGameStart. frame. Qed.

Lemma respects_onBeforeUnmount : respects may_pause R onBeforeUnmount.
Proof. unfold onBeforeUnmount, emitter_off. frame. Qed.

Lemma respects_fire_removeClass (i : nat) (className icon : string)
    (a : GameStartAnswers) :
  respects may_pause R (fire i (removeClassTask className icon) a).
Proof. unfold fire, run_task. frame. Qed.

Context `{!Traceless R}.

Lemma respects_cheatUpdateCallback : respects may_pause R cheatUpdateCallback.
Proof.
  pose proof (respects_updateEmulatorCheats may_pause R).
  unfold cheatUpdateCallback. frame.
Qed.

Lemma respects_fire_cheatUpdate (i : nat) (a : GameStartAnswers) :
  respects may_pause R (fire i cheatUpdateTask a).
Proof.
  pose proof respects_cheatUpdateCallback.
  unfold fire, run_task. frame.
Qed.

End Timers.

Section GameStart.

Context (R : Session → Session → list event → Prop)
  `{!Framing R, !Allows R, !Permissive R}.

Lemma respects_gameStartCallback (a : GameStartAnswers) :
  respects True R (gameStartCallback a).
Proof.
  pose proof (respects_loadSave R). pose proof (respects_loadState R).
  pose proof (respects_loadCheatCodes R).
  pose proof (respects_setTimeout True R). pose proof (respects_clearTimeout True R).
  pose proof (respects_set_handle True R).
  unfold gameStartCallback. frame.
Qed.

Lemma respects_fire_gameStart (i : nat) (a : GameStartAnswers) :
  respects True R (fire i gameStartTask a).
Proof.
  pose proof (respects_gameStartCallback a).
  pose proof (respects_clearTimeout True R).
  unfold fire, run_task. frame.
Qed.

End GameStart.

(** ** The pending cheat update *)

#[global] Instance sync_inv_allows : Allows (holds sync_inv).
Proof.
  split.
  - intros e s _ H. exact H.
  - intros f s Hf Hinv i. destruct (Hf s) as (Ht & _ & Hr).
    unfold cheat_pending. rewrite Ht, Hr. apply Hinv.
  - intros c ic d s Hinv i. unfold cheat_pending. cbn.
    destruct (decide (i = nextTimer s)) as [->|Hne].
    + by rewrite lookup_insert_eq.
    + rewrite lookup_insert_ne by done. apply Hinv.
Qed.

#[global] Instance idle_allows : Allows (holds idle).
Proof.
  split.
  - intros e s _ H. exact H.
  - intros f s Hf Hidle i. destruct (Hf s) as (Ht & _ & _).
    unfold cheat_pending. rewrite Ht. apply Hidle.
  - intros c ic d s Hidle i. unfold cheat_pending. cbn.
    destruct (decide (i = nextTimer s)) as [->|Hne].
    + by rewrite lookup_insert_eq.
    + rewrite lookup_insert_ne by done. apply Hidle.
Qed.

#[global] Instance dormant_allows : Allows (holds dormant).
Proof.
  split.
  - intros e s _ H. exact H.
  - intros f s Hf Hd i t. destruct (Hf s) as (Ht & _ & _).
    rewrite Ht. apply Hd.
  - intros c ic d s Hd i t. cbn.
    destruct (decide (i = nextTimer s)) as [->|Hne].
    + rewrite lookup_insert_eq. intros [= <-]. by exists c, ic.
    + rewrite lookup_insert_ne by done. apply Hd.
Qed.

Lemma idle_sync_inv (s : Session) : idle s → sync_inv s.
Proof. intros Hidle i Hi. by destruct (Hidle i). Qed.

(** Once its timer is out of the table, the update that
    [cheatUpdateTimeout] holds is the only one there could be. *)
Lemma sync_inv_clear (s : Session) (i : nat) :
  sync_inv s → cheatUpdateTimeout s = Some i →
  idle (final (clearTimeout i s)).
Proof.
  intros Hinv Href j Hj. unfold cheat_pending in Hj. cbn in Hj.
  apply lookup_delete_Some in Hj as [Hne Hj].
  specialize (Hinv j Hj). congruence.
Qed.

Lemma sync_inv_clear_other (s : Session) (i : nat) :
  sync_inv s → sync_inv (final (clearTimeout i s)).
Proof.
  intros Hinv j Hj. unfold cheat_pending in Hj. cbn in Hj.
  apply lookup_delete_Some in Hj as [Hne Hj]. by apply Hinv.
Qed.

(** The end of the game-start callback, after its last [await]: cancel,
    schedule, remember. Nothing can happen in between. *)
Lemma holds_sync_reschedule :
  respects True (holds sync_inv)
    (pending <- gets cheatUpdateTimeout ;;
     match pending with
     | Some i => clearTimeout i
     | None => ret tt
     end ;;
     i <- setTimeout cheatUpdateTask 1000 ;;
     modify (set_cheatUpdateTimeout (Some i))).
Proof.
  intros s. unfold bind, gets. cbn.
  destruct (cheatUpdateTimeout s) as [old|] eqn:Href; cbn;
    intros Hinv j; unfold cheat_pending; cbn.
  - destruct (decide (j = nextTimer s)) as [->|Hne]; [done|].
    rewrite lookup_insert_ne by done. intros Hj.
    by destruct (sync_inv_clear s old Hinv Href j).
  - destruct (decide (j = nextTimer s)) as [->|Hne]; [done|].
    rewrite lookup_insert_ne by done. intros Hj.
    specialize (Hinv j Hj). congruence.
Qed.

Lemma holds_sync_gameStartCallback (a : GameStartAnswers) :
  respects True (holds sync_inv) (gameStartCallback a).
Proof.
  pose proof (respects_loadSave (holds sync_inv)).
  pose proof (respects_loadState (holds sync_inv)).
  pose proof (respects_loadCheatCodes (holds sync_inv)).
  pose proof holds_sync_reschedule.
  unfold gameStartCallback. frame.
Qed.

Lemma holds_sync_onGameStart : respects True (holds sync_inv) onGameStart.
Proof.
  intros s Hinv i. unfold cheat_pending. cbn.
  destruct (decide (i = nextTimer s)) as [->|Hne].
  - by rewrite lookup_insert_eq.
  - rewrite lookup_insert_ne by done. apply Hinv.
Qed.

Lemma holds_idle_cheatUpdateCallback : respects False (holds idle) cheatUpdateCallback.
Proof.
  unfold cheatUpdateCallback.
  use respects_bind; [use respects_updateEmulatorCheats | intros _].
  intros s Hidle. exact Hidle.
Qed.

(** What teardown leaves of the session. *)
Lemma onBeforeUnmount_ended (s : Session) :
  ∃ s', onBeforeUnmount s = Ended (Return tt) s' [] ∧
        timers s' = match cheatUpdateTimeout s with
                    | Some i => delete i (timers s)
                    | None => timers s
                    end ∧
        nextTimer s' = nextTimer s ∧
        cheatUpdateTimeout s' = None.
Proof.
  destruct s as [? ? ? pending ? ? ? ? ? ? ? ? bus ? ?].
  destruct pending, bus; cbn; eexists; split; try reflexivity; done.
Qed.

Lemma onBeforeUnmount_idle (s s' : Session) (o : outcome unit) (t : list event) :
  sync_inv s → onBeforeUnmount s = Ended o s' t → idle s'.
Proof.
  intros Hinv Hrun i. unfold cheat_pending.
  destruct (onBeforeUnmount_ended s) as (s1 & Hs1 & Ht & _ & _).
  rewrite Hs1 in Hrun. injection Hrun as _ <- _. rewrite Ht.
  destruct (cheatUpdateTimeout s) as [old|] eqn:Href.
  - apply (sync_inv_clear s old Hinv Href i).
  - intros Hi. specialize (Hinv i Hi). congruence.
Qed.

Lemma holds_sync_onBeforeUnmount : respects True (holds sync_inv) onBeforeUnmount.
Proof.
  intros s. destruct (onBeforeUnmount_ended s) as (s' & Hs' & _).
  rewrite Hs'. intros Hinv. apply idle_sync_inv.
  by eapply onBeforeUnmount_idle.
Qed.

Lemma holds_sync_fire (i : nat) (t : task) (a : GameStartAnswers) (s : Session) :
  timers s !! i = Some t →
  obeys True (holds sync_inv) s (fire i t a s).
Proof.
  intros Ht. destruct t as [| |c ic].
  - assert (Hr : respects True (holds sync_inv) (fire i gameStartTask a)).
    { use respects_bind.
      - intros s0 Hs0. by apply sync_inv_clear_other.
      - intros ?. apply holds_sync_gameStartCallback. }
    apply Hr.
  - pose proof (holds_idle_cheatUpdateCallback
                  (set_timers (delete i (timers s)) (nextTimer s) s)) as Hcb.
    unfold fire, bind, run_task. cbn -[cheatUpdateCallback].
    destruct (cheatUpdateCallback _) as [o s1 t1|s1 t1 resume]; cbn in *.
    + intros Hinv. apply idle_sync_inv, Hcb.
      apply (sync_inv_clear s i Hinv (Hinv i Ht)).
    + by destruct Hcb.
  - cbn. intros Hinv. by apply sync_inv_clear_other.
Qed.

(** ** The event loop and its paused handlers *)

Lemma tail_obeys {A} (R : Session → Session → list event → Prop) (s0 : Session)
    (p : progress A) :
  obeys True R s0 p → tail (respects True R) p.
Proof. destruct p; cbn; [done | tauto]. Qed.

Lemma tail_atomic {A} (Q : Js A → Prop) (m : Js A) (s : Session) :
  atomic m → tail Q (m s).
Proof. intros Hm. by destruct (atomic_ended m s Hm) as (o & s' & t & ->). Qed.

Lemma quiet_tame (m : Js unit) : quiet m → tame m.
Proof. intros Hm R ? ? ?. by apply Hm. Qed.

Lemma tail_tame (m : Js unit) (s : Session) : tame m → tail tame (m s).
Proof.
  intros Hm. destruct (m s) as [|s1 t1 resume] eqn:Hrun; cbn; [done|].
  intros R ? ? ?. specialize (Hm R _ _ _ s). rewrite Hrun in Hm.
  by destruct Hm as (_ & _ & Hk).
Qed.

Lemma tail_quiet (m : Js unit) (s : Session) : quiet m → tail quiet (m s).
Proof.
  intros Hm. destruct (m s) as [|s1 t1 resume] eqn:Hrun; cbn; [done|].
  intros R ? ?. specialize (Hm R _ _ s). rewrite Hrun in Hm.
  by destruct Hm as (_ & _ & Hk).
Qed.

Lemma tail_handler_ok (o : origin) (m : Js unit) (s : Session) :
  obeys True (holds sync_inv) s (m s) → tame m → (o = other_handler → quiet m) →
  tail (handler_ok o) (m s).
Proof.
  intros Hsync Htame Hquiet.
  pose proof (tail_obeys _ _ _ Hsync) as H1. pose proof (tail_tame m s Htame) as H2.
  destruct (m s) as [|s1 t1 resume] eqn:Hrun; cbn in *; [done|].
  split; [done|]. split; [done|]. intros Ho.
  pose proof (tail_quiet m s (Hquiet Ho)) as H3. by rewrite Hrun in H3.
Qed.

(** What a spawned handler does to the session in its first stretch. *)
Lemma spawn_session (R : Session → Session → list event → Prop) (o : origin)
    (m : Js unit) (w : World) :
  obeys True R (session w) (m (session w)) →
  R (session w) (session (spawn o m w).1) (spawn o m w).2.
Proof. unfold spawn. destruct (m (session w)); cbn; tauto. Qed.

Lemma spawn_suspended (Q : origin → Js unit → Prop) (o : origin) (m : Js unit)
    (w : World) :
  (∀ o' k, (o', k) ∈ suspended w → Q o' k) →
  tail (Q o) (m (session w)) →
  ∀ o' k, (o', k) ∈ suspended (spawn o m w).1 → Q o' k.
Proof.
  intros Hw Htail o' k. unfold spawn.
  destruct (m (session w)) as [|s1 t1 resume]; cbn in *; [apply Hw|].
  rewrite elem_of_app, list_elem_of_singleton. intros [Hin|[= -> ->]]; [by apply Hw | done].
Qed.

Section Dispatch.

Context (may_pause : Prop) (R : Session → Session → list event → Prop)
  `{!Framing R}.

Lemma respects_when_hook (h : hook) (m : Js unit) :
  respects may_pause R m → respects may_pause R (when_hook h m).
Proof. intros Hm. unfold when_hook. frame. Qed.

Lemma respects_when_listening (name : string) (h : listener) (m : Js unit) :
  respects may_pause R m → respects may_pause R (when_listening name h m).
Proof. intros Hm. unfold when_listening. frame. Qed.

End Dispatch.

(** The turns that start a quiet handler, and the others. *)
Lemma step_classify (i : input) (w : World) :
  (∃ m, step i w = spawn other_handler m w ∧ quiet m) ∨
  i = before_unmount ∨ i = runtime_game_start ∨
  (∃ k a, i = timer_fires k a) ∨ (∃ n, i = handler_resumes n).
Proof.
  destruct i as [cheats|newId cheats| | |stateFile screenshotFile uploaded|
                 |saveFile screenshotFile uploaded| |sv r picked|st r picked
                 |k a|n|e element].
  all: try (by right; left).
  all: try (by right; right; left).
  all: try (by right; right; right; left; eauto).
  all: try (by right; right; right; right; eauto).
  all: left; eexists; (split; [reflexivity|]); intros R ? ?.
  - apply respects_onMounted; tc_solve.
  - apply respects_watch_rom_id; tc_solve.
  - use respects_when_hook. apply respects_onSaveState; tc_solve.
  - use respects_when_hook. apply respects_onLoadState; tc_solve.
  - use respects_when_hook. apply respects_onSaveSave; tc_solve.
  - use respects_when_hook. apply respects_onLoadSave; tc_solve.
  - use respects_when_listening. apply respects_loadSave; tc_solve.
  - use respects_when_listening. apply respects_loadState; tc_solve.
  - frame.
Qed.

Lemma starts_here (i : input) (w : World) (o : origin) (m : Js unit) :
  step i w = spawn o m w → starts i w o m.
Proof. intros H. by exists w. Qed.

Lemma well_behaved_quiet (i : input) (w : World) (o : origin) (m : Js unit) :
  quiet m → well_behaved i w o m.
Proof.
  intros Hm. split; [|split; [|split]].
  - apply (Hm (holds sync_inv)); tc_solve.
  - apply tail_handler_ok; [apply (Hm (holds sync_inv)); tc_solve | by apply quiet_tame | done].
  - intros R ? ? ? ?. by apply Hm.
  - intros _ R ? ? ?. by apply Hm.
Qed.

Lemma well_behaved_atomic (i : input) (w : World) (o : origin) (m : Js unit) :
  atomic m → tame m → respects True (holds sync_inv) m → well_behaved i w o m.
Proof.
  intros Hatomic Htame Hsync. split; [|split; [|split]].
  - apply Hsync.
  - by apply tail_atomic.
  - intros R ? ? ? ?. by apply Htame.
  - intros _ R ? ? ?. by apply Htame.
Qed.

Lemma well_behaved_resumed (i : input) (w : World) (o : origin) (k : Js unit) :
  handler_ok o k → well_behaved i w o k.
Proof.
  intros (Hsync & Htame & Hquiet). split; [|split; [|split]].
  - apply Hsync.
  - apply tail_handler_ok; [apply Hsync | done..].
  - intros R ? ? ? ?. by apply Htame.
  - intros _ R ? ? ?. by apply Htame.
Qed.

Lemma well_behaved_fire (k : nat) (a : GameStartAnswers) (t : task) (w : World) :
  timers (session w) !! k = Some t →
  well_behaved (timer_fires k a) w (origin_of t) (fire k t a).
Proof.
  intros Ht. destruct t as [| |c ic].
  - split; [|split; [|split]].
    + by apply holds_sync_fire.
    + apply tail_handler_ok; [by apply holds_sync_fire | | done].
      intros R ? ? ?. by apply respects_fire_gameStart.
    + intros R ? ? ? ?. by apply respects_fire_gameStart.
    + intros _ R ? ? ?. by apply respects_fire_gameStart.
  - split; [|split; [|split]].
    + by apply holds_sync_fire.
    + apply tail_atomic. apply (respects_fire_cheatUpdate False anything).
    + intros R ? ? ? ?. by apply respects_fire_cheatUpdate.
    + intros Hno. by destruct (Hno k a eq_refl).
  - apply well_behaved_atomic.
    + apply (respects_fire_removeClass False anything).
    + intros R ? ? ?. by apply respects_fire_removeClass.
    + intros s Hinv. by apply (sync_inv_clear_other s k).
Qed.

(** Every turn of the event loop either does nothing or starts a
    well-behaved handler. *)
Lemma step_well_behaved (i : input) (w : World) :
  suspended_ok w →
  step i w = (w, []) ∨ ∃ o m, starts i w o m ∧ well_behaved i w o m.
Proof.
  intros Hw.
  destruct (step_classify i w) as [(m & Hstep & Hm)|[->|[->|[(k & a & ->)|(n & ->)]]]].
  - right. exists other_handler, m. split; [by apply starts_here|].
    by apply well_behaved_quiet.
  - right. exists other_handler, onBeforeUnmount. split; [by apply starts_here|].
    apply well_behaved_atomic.
    + apply (respects_onBeforeUnmount False anything).
    + intros R ? ? ?. by apply respects_onBeforeUnmount.
    + apply holds_sync_onBeforeUnmount.
  - right. exists other_handler, (when_hook EJS_onGameStart onGameStart).
    split; [by apply starts_here|].
    apply well_behaved_atomic.
    + use respects_when_hook. apply (respects_onGameStart False anything).
    + intros R ? ? ?. use respects_when_hook. by apply respects_onGameStart.
    + use respects_when_hook. apply holds_sync_onGameStart.
  - cbn [step]. destruct (timers (session w) !! k) as [t|] eqn:Ht; [right | by left].
    exists (origin_of t), (fire k t a).
    split; [apply starts_here; cbn [step]; by rewrite Ht|].
    by apply well_behaved_fire.
  - cbn [step]. destruct (suspended w !! n) as [[o k]|] eqn:Hn; [right | by left].
    exists o, k. split.
    + eexists. split; [cbn [step]; by rewrite Hn|]. split; [done|].
      cbn. intros x Hx. by eapply list_elem_of_delete_inv.
    + apply well_behaved_resumed, Hw. by eapply list_elem_of_lookup_2.
Qed.

Lemma step_world_inv (i : input) (w : World) : world_inv w → world_inv (step i w).1.
Proof.
  intros (Hsync & Hb & Hw).
  destruct (step_well_behaved i w Hw)
    as [->|(o & m & (w' & -> & Hs & Hsub) & H1 & H2 & H3 & _)]; [done|].
  rewrite <- Hs in *. split; [|split].
  - by apply (spawn_session (holds sync_inv) o m w' H1).
  - apply (spawn_session grows o m w'); [by apply H3; tc_solve | done].
  - unfold suspended_ok. apply (spawn_suspended handler_ok o m w'); [|done].
    intros o' k Hin. apply Hw, Hsub, Hin.
Qed.

Lemma step_grows (i : input) (w : World) :
  world_inv w → grows (session w) (session (step i w).1) (step i w).2.
Proof.
  intros (Hsync & Hb & Hw).
  destruct (step_well_behaved i w Hw)
    as [->|(o & m & (w' & -> & Hs & Hsub) & H1 & H2 & H3 & _)].
  - apply (framing_refl (R := grows)).
  - rewrite <- Hs in *. apply spawn_session. apply H3; tc_solve.
Qed.

(** Only the firing of a pending cheat update calls the cheat table. *)
Lemma step_silent (i : input) (w : World) :
  suspended_ok w →
  (∀ k a, i = timer_fires k a → ¬ cheat_pending (session w) k) →
  cheat_table_calls (step i w).2 = [].
Proof.
  intros Hw Hi.
  destruct (step_well_behaved i w Hw)
    as [->|(o & m & (w' & -> & Hs & Hsub) & _ & _ & _ & H4)]; [done|].
  rewrite <- Hs in *. apply (spawn_session silent). apply H4; [done|tc_solve..].
Qed.

Lemma step_calls_cheat_table (i : input) (w : World) :
  suspended_ok w →
  cheat_table_calls (step i w).2 ≠ [] →
  ∃ k a, i = timer_fires k a ∧ cheat_pending (session w) k.
Proof.
  intros Hw Hcalls.
  destruct i as [| | | | | | | | | |k a| |];
    try (by destruct Hcalls; apply step_silent).
  exists k, a. split; [done|].
  destruct (timers (session w) !! k) as [[| |c ic]|] eqn:Ht; try done;
    destruct Hcalls; apply step_silent; try done; intros ? ? [= <- <-];
    unfold cheat_pending; by rewrite Ht.
Qed.

Lemma run_world_inv (inputs : list input) (w : World) :
  world_inv w → world_inv (run inputs w).1.
Proof.
  revert w. induction inputs as [|i rest IH]; intros w Hw; [done|].
  cbn. by apply IH, step_world_inv.
Qed.

(** A timer that is out of the table stays out of it. *)
Lemma run_gone (inputs : list input) (w : World) (i : nat) :
  world_inv w → i < nextTimer (session w) → timers (session w) !! i = None →
  timers (session (run inputs w).1) !! i = None.
Proof.
  revert w. induction inputs as [|input rest IH]; intros w Hw Hi Hnone; [done|].
  cbn. destruct (step_grows input w Hw) as (_ & Hle & Hgone); [apply Hw|].
  apply IH; [by apply step_world_inv | lia | by apply Hgone].
Qed.

Lemma boot_world_inv (G : string → list string) (p : Props) (pg : Page) :
  world_inv (boot (setup G p pg)).
Proof.
  split; [|split].
  - intros i Hi. unfold cheat_pending in Hi. cbn in Hi. by rewrite lookup_empty in Hi.
  - intros i [x Hx]. cbn in Hx. by rewrite lookup_empty in Hx.
  - intros o k Hin. cbn in Hin. by apply elem_of_nil in Hin.
Qed.

(** The answers to the four awaits on the way of the cheat list through
    [getCheatCodes], [fetchCheatCodes], [loadCheatCodes] and the callback. *)
Example reschedule_example :
  let w := (run [runtime_game_start; timer_fires 1 example_answers;
                 handler_resumes 0; handler_resumes 0;
                 handler_resumes 0; handler_resumes 0;
                 runtime_game_start; timer_fires 3 example_answers;
                 handler_resumes 0; handler_resumes 0;
                 handler_resumes 0; handler_resumes 0]
              (boot example_session)).1 in
  cheatUpdateTimeout (session w) = Some 4 ∧
  timers (session w) !! 2 = None ∧
  timers (session w) !! 4 = Some cheatUpdateTask ∧
  suspended w = [].
Proof. repeat split; reflexivity. Qed.

(** C3. In every world reached from the script's start by any sequence of
    events, with handlers paused at their awaits and resumed in any order, a
    pending deferred cheat update is the one whose handle
    [cheatUpdateTimeout] holds, so at most one is pending; a turn of the
    event loop that schedules a new one leaves no earlier one pending; a
    timer that is no longer pending (cancelled or fired) never becomes
    pending again; and nothing but the firing of a pending deferred cheat
    update calls the runtime's cheat table. So a superseded update never
    writes. *)
Theorem pending_sync_timer_unique (G : string → list string) (p : Props) (pg : Page)
    (inputs : list input) :
  let w := (run inputs (boot (setup G p pg))).1 in
  (∀ i, cheat_pending (session w) i → cheatUpdateTimeout (session w) = Some i) ∧
  (∀ i j, cheat_pending (session w) i → cheat_pending (session w) j → i = j) ∧
  (∀ input i j,
     cheat_pending (session w) i → ¬ cheat_pending (session w) j →
     cheat_pending (session (step input w).1) j →
     ¬ cheat_pending (session (step input w).1) i) ∧
  (∀ more i, i < nextTimer (session w) → timers (session w) !! i = None →
     timers (session (run more w).1) !! i = None) ∧
  (∀ input, cheat_table_calls (step input w).2 ≠ [] →
     ∃ k a, input = timer_fires k a ∧ cheat_pending (session w) k).
Proof.
  cbn zeta.
  pose proof (run_world_inv inputs _ (boot_world_inv G p pg)) as Hw.
  set (w := (run inputs (boot (setup G p pg))).1) in *.
  destruct Hw as (Hinv & Hb & Hok).
  split; [exact Hinv|]. split; [|split; [|split]].
  - intros i j Hi Hj. apply Hinv in Hi, Hj. congruence.
  - intros input i j Hi Hnj Hj' Hi'.
    destruct (step_world_inv input w) as (Hinv' & _); [done|].
    apply Hinv' in Hj', Hi'. congruence.
  - intros more i. by apply run_gone.
  - intros input. by apply step_calls_cheat_table.
Qed.

(** Two game starts in a row: when the second callback, back from its last
    await, schedules timer 4, timer 2 of the first is no longer pending. *)
Lemma pending_sync_timer_unique_witness :
  ¬ cheat_pending
      (session
         (step (handler_resumes 0)
            (run [runtime_game_start; timer_fires 1 example_answers;
                  handler_resumes 0; handler_resumes 0;
                  handler_resumes 0; handler_resumes 0;
                  runtime_game_start; timer_fires 3 example_answers;
                  handler_resumes 0; handler_resumes 0; handler_resumes 0]
               (boot example_session)).1).1) 2.
Proof.
  refine (proj1 (proj2 (proj2
    (pending_sync_timer_unique example_cores example_props example_page
       [runtime_game_start; timer_fires 1 example_answers;
        handler_resumes 0; handler_resumes 0;
        handler_resumes 0; handler_resumes 0;
        runtime_game_start; timer_fires 3 example_answers;
        handler_resumes 0; handler_resumes 0; handler_resumes 0])))
    (handler_resumes 0) 2 4 _ _ _).
  - reflexivity.
  - unfold cheat_pending. vm_compute. discriminate.
  - reflexivity.
Defined.

(** ** Unmounting with a cheat update pending *)

(** C4: the code at two failing inputs. [onBeforeUnmount] clears "any
    pending timeouts" through the one handle it has, [cheatUpdateTimeout];
    the 10 ms timer of [window.EJS_onGameStart] has no handle, and the
    callback it defers does not look whether the component is still mounted
    when it comes back from an await. First: a cheat update is pending
    (timer 2) and a second game start is still waiting for its 10 ms
    (timer 3) when the session is unmounted; unmounting cancels timer 2
    only, the waiting callback then runs, schedules timer 4, and timer 4
    writes the cheat table. Second, with a single game start: the callback
    is paused at its cheat fetch when the session is unmounted; it resumes,
    schedules timer 2, and timer 2 writes the cheat table. *)
Lemma unmount_then_stale_game_start :
  (let w := (run [runtime_game_start; timer_fires 1 example_answers;
                  handler_resumes 0; handler_resumes 0;
                  handler_resumes 0; handler_resumes 0;
                  runtime_game_start] (boot example_session)).1 in
   cheat_pending (session w) 2 ∧
   cheatUpdateTimeout (session w) = Some 2 ∧
   cheat_table_calls
     (run [before_unmount; timer_fires 3 example_answers;
           handler_resumes 0; handler_resumes 0;
           handler_resumes 0; handler_resumes 0;
           timer_fires 4 example_answers] w).2
   = [call_resetCheat; call_resetCheat;
      call_setCheat 0 false "SXYIZVSE"; call_setCheat 1 false "AEKZZZIA"]) ∧
  (let w := (run [runtime_game_start; timer_fires 1 example_answers;
                  handler_resumes 0] (boot example_session)).1 in
   cheat_table_calls
     (run [before_unmount; handler_resumes 0; handler_resumes 0;
           handler_resumes 0; timer_fires 2 example_answers] w).2
   = [call_resetCheat; call_resetCheat;
      call_setCheat 0 false "SXYIZVSE"; call_setCheat 1 false "AEKZZZIA"]).
Proof. repeat split; reflexivity. Qed.

Lemma step_dormant (i : input) (w : World) :
  i ≠ runtime_game_start → dormant_world w →
  dormant_world (step i w).1 ∧ cheat_table_calls (step i w).2 = [].
Proof.
  intros Hi [Hd Hquiet].
  destruct (step_classify i w) as [(m & -> & Hm)|[->|[->|[(k & a & ->)|(n & ->)]]]].
  - split; [split|].
    + apply (spawn_session (holds dormant)); [apply Hm; tc_solve | done].
    + apply (spawn_suspended (λ _ k, quiet k) other_handler m w);
        [done | by apply tail_quiet].
    + apply (spawn_session silent). apply Hm; tc_solve.
  - destruct (onBeforeUnmount_ended (session w)) as (s' & Hs' & Ht & _ & _).
    cbn [step]. unfold spawn. rewrite Hs'. cbn. split; [split|]; try done.
    unfold dormant. cbn. intros j t. rewrite Ht.
    destruct (cheatUpdateTimeout (session w)).
    + intros [_ Hj]%lookup_delete_Some. by eapply Hd.
    + apply Hd.
  - done.
  - cbn [step]. destruct (timers (session w) !! k) as [t|] eqn:Ht; [|done].
    destruct (Hd k t Ht) as (c & ic & ->). cbn. split; [split|]; try done.
    unfold dormant. cbn.
    intros j t' [_ Hj]%lookup_delete_Some. by eapply Hd.
  - cbn [step]. destruct (suspended w !! n) as [[o k]|] eqn:Hn; [|done].
    assert (Hk : quiet k) by (eapply Hquiet; by eapply list_elem_of_lookup_2).
    split; [split|].
    + apply (spawn_session (holds dormant)); [apply Hk; tc_solve | done].
    + apply (spawn_suspended (λ _ k, quiet k) o k); [|by apply tail_quiet].
      cbn. intros o' k' Hin. eapply Hquiet. by eapply list_elem_of_delete_inv.
    + apply (spawn_session silent). apply Hk; tc_solve.
Qed.

Lemma run_dormant (inputs : list input) (w : World) :
  runtime_game_start ∉ inputs → dormant_world w →
  cheat_table_calls (run inputs w).2 = [].
Proof.
  revert w. induction inputs as [|i rest IH]; intros w Hno Hd; [done|].
  apply not_elem_of_cons in Hno as [Hi Hrest].
  destruct (step_dormant i w) as [Hd' Hsilent]; [done..|].
  cbn. rewrite cheat_table_calls_app, Hsilent. by apply IH.
Qed.

(** X27. Take any world reached from the script's start, with handlers
    paused at their awaits and resumed in any order, and unmount the session
    there. Unmounting resets the handle of the deferred cheat update and
    takes a pending one out of the timer table; whatever happens afterwards
    the cancelled timer never becomes pending again, and asking it to fire
    does nothing. If, in addition, no game-start callback is on its way at
    the unmount (none waits for its 10 ms, none is paused at an await) and
    the runtime does not call the game-start hook afterwards, then whatever
    else happens no call is made on the runtime's cheat table. *)
Theorem unmount_cancels_pending_update (G : string → list string) (p : Props)
    (pg : Page) (before after : list input) :
  let w := (run before (boot (setup G p pg))).1 in
  let w' := (run (before_unmount :: after) w).1 in
  cheatUpdateTimeout (session (step before_unmount w).1) = None ∧
  (∀ i, cheat_pending (session w) i →
        timers (session (step before_unmount w).1) !! i = None ∧
        timers (session w') !! i = None ∧
        ∀ a, step (timer_fires i a) w' = (w', [])) ∧
  (no_game_start w → runtime_game_start ∉ after →
   cheat_table_calls (run (before_unmount :: after) w).2 = []).
Proof.
  cbn zeta.
  pose proof (run_world_inv before _ (boot_world_inv G p pg)) as Hw.
  set (w := (run before (boot (setup G p pg))).1) in *.
  pose proof (step_world_inv before_unmount w Hw) as Hw1.
  destruct Hw as (Hinv & Hb & Hok).
  destruct (onBeforeUnmount_ended (session w)) as (s' & Hs' & Ht & Hn & Href).
  assert (Hstep : step before_unmount w
                  = ({| session := s'; suspended := suspended w |}, [])).
  { cbn [step]. unfold spawn. by rewrite Hs'. }
  split; [|split].
  - by rewrite Hstep.
  - intros i Hi.
    assert (Hgone : timers (session (step before_unmount w).1) !! i = None).
    { rewrite Hstep. cbn. rewrite Ht, (Hinv i Hi). apply lookup_delete_eq. }
    assert (Hnever : timers (session (run (before_unmount :: after) w).1) !! i = None).
    { cbn [run]. cbn [fst]. apply run_gone; [done| |done].
      rewrite Hstep. cbn. rewrite Hn. apply Hb. by exists cheatUpdateTask. }
    split; [exact Hgone|]. split; [exact Hnever|].
    intros a. cbn [step]. by rewrite Hnever.
  - intros [Hnotimer Hnopaused] Hafter.
    assert (Hd : dormant_world (step before_unmount w).1).
    { rewrite Hstep. split; cbn.
      - intros i [| |c ic] Hi.
        + destruct (Hnotimer i). unfold game_start_pending.
          rewrite Ht in Hi. destruct (cheatUpdateTimeout (session w)).
          * by apply lookup_delete_Some in Hi as [_ Hi].
          * done.
        + by destruct (onBeforeUnmount_idle (session w) s' _ _ Hinv Hs' i).
        + by exists c, ic.
      - intros o k Hin. destruct (Hok o k Hin) as (_ & _ & Hquiet).
        apply Hquiet. destruct o; [by destruct (Hnopaused k) | done]. }
    cbn [run]. cbn [snd]. rewrite cheat_table_calls_app.
    rewrite (step_silent before_unmount w) by done.
    by apply run_dormant.
Qed.

(** The example session with a cheat update pending, unmounted; the timer
    that was cancelled is then asked to fire. *)
Lemma unmount_cancels_pending_update_witness :
  cheat_table_calls
    (run [before_unmount; timer_fires 2 example_answers]
       (run [runtime_game_start; timer_fires 1 example_answers;
             handler_resumes 0; handler_resumes 0;
             handler_resumes 0; handler_resumes 0] (boot example_session)).1).2
  = [].
Proof.
  refine (proj2 (proj2 (unmount_cancels_pending_update example_cores example_props
                          example_page
                          [runtime_game_start; timer_fires 1 example_answers;
                           handler_resumes 0; handler_resumes 0;
                           handler_resumes 0; handler_resumes 0]
                          [timer_fires 2 example_answers])) _ _).
  - split.
    + assert (Hs : timers (session
                     (run [runtime_game_start; timer_fires 1 example_answers;
                           handler_resumes 0; handler_resumes 0;
                           handler_resumes 0; handler_resumes 0]
                        (boot (setup example_cores example_props example_page))).1)
                   = {[2 := cheatUpdateTask]})
        by reflexivity.
      intros i Hi. unfold game_start_pending in Hi. rewrite Hs in Hi.
      by apply lookup_singleton_Some in Hi as [_ [=]].
    + intros k Hk. vm_compute in Hk. by apply elem_of_nil in Hk.
  - intros [=]%list_elem_of_singleton.
Defined.

(** * Further properties *)

(** ** Runtime bootstrap: core and game name *)

(** X1. The effective core is always one of the platform's supported cores,
    and it is undefined exactly when the platform has no supported core. *)
Theorem effective_core_supported (G : string → list string) (p : Props) (pg : Page) :
  let supported := G (platform_slug (rom p)) in
  (∀ c, EJS_core (setup G p pg) = Some c → c ∈ supported) ∧
  (EJS_core (setup G p pg) = None ↔ supported = []).
Proof.
  cbn. unfold resolve_core. split.
  - intros c. destruct (List.find _ _) as [c'|] eqn:Hfind.
    + intros [= <-]. apply List.find_some in Hfind as [Hin _].
      by apply list_elem_of_In.
    + destruct (G _) as [|c' l]; [done|]. intros [= <-]. left.
  - destruct (List.find _ _) as [c'|] eqn:Hfind.
    + split; [done|]. intros Hnil. rewrite Hnil in Hfind. done.
    + by destruct (G _).
Qed.

Example EJS_gameName_example :
  EJS_gameName {| rom := {| rom_id := 1; platform_slug := "gb";
                            fs_name_no_tags := "  Zelda: Link's Awakening?  " |};
                  save := None; state := None; core := None; disc := None |}
  = "Zelda Links Awakening".
Proof. reflexivity. Qed.

Lemma remove_invalid_chars_sublist (s : string) :
  sublist (list_ascii_of_string (remove_invalid_chars s)) (list_ascii_of_string s).
Proof.
  induction s as [|c s IH]; cbn; [constructor|].
  destruct (is_invalid_char c); cbn; by constructor.
Qed.

Lemma remove_invalid_chars_valid (s : string) (c : ascii) :
  c ∈ list_ascii_of_string (remove_invalid_chars s) → is_invalid_char c = false.
Proof.
  induction s as [|c' s IH]; cbn; [by intros ?%elem_of_nil|].
  destruct (is_invalid_char c') eqn:Hc'; cbn; [done|].
  intros [->|?]%elem_of_cons; auto.
Qed.

Lemma remove_invalid_chars_id (s : string) :
  (∀ c, c ∈ list_ascii_of_string s → is_invalid_char c = false) →
  remove_invalid_chars s = s.
Proof.
  induction s as [|c s IH]; cbn; [done|]. intros Hs.
  rewrite (Hs c) by left. rewrite IH; [done|].
  intros c' Hc'. apply Hs. by right.
Qed.

Lemma trimStart_sublist (s : string) :
  sublist (list_ascii_of_string (trimStart s)) (list_ascii_of_string s).
Proof.
  induction s as [|c s IH]; cbn; [constructor|].
  destruct (is_white_space c); cbn; [by constructor | done].
Qed.

Lemma trimStart_first (s : string) (c : ascii) :
  first_char (trimStart s) = Some c → is_white_space c = false.
Proof.
  induction s as [|c' s IH]; cbn; [done|].
  destruct (is_white_space c') eqn:Hc'; cbn; [done | congruence].
Qed.

Lemma trimStart_id (s : string) :
  (∀ c, first_char s = Some c → is_white_space c = false) → trimStart s = s.
Proof. destruct s as [|c s]; cbn; [done|]. intros Hs. by rewrite (Hs c). Qed.

Lemma trimEnd_sublist (s : string) :
  sublist (list_ascii_of_string (trimEnd s)) (list_ascii_of_string s).
Proof.
  induction s as [|c s IH]; cbn; [constructor|].
  destruct (trimEnd s) as [|c' r]; cbn in *.
  - destruct (is_white_space c); cbn; by constructor.
  - by constructor.
Qed.

Lemma trimEnd_first (s : string) :
  (∀ c, first_char s = Some c → is_white_space c = false) →
  ∀ c, first_char (trimEnd s) = Some c → is_white_space c = false.
Proof.
  intros Hs c. destruct s as [|c' s]; cbn; [done|].
  specialize (Hs c' eq_refl).
  destruct (trimEnd s); [rewrite Hs|]; cbn; congruence.
Qed.

Lemma trimEnd_last (s : string) (c : ascii) :
  last_char (trimEnd s) = Some c → is_white_space c = false.
Proof.
  induction s as [|c' s IH]; cbn; [done|].
  destruct (trimEnd s) as [|c'' r] eqn:Hr.
  - destruct (is_white_space c') eqn:Hc'; cbn; [done | congruence].
  - cbn. cbn in IH. exact IH.
Qed.

Lemma trimEnd_id (s : string) :
  (∀ c, last_char s = Some c → is_white_space c = false) → trimEnd s = s.
Proof.
  induction s as [|c s IH]; cbn; [done|]. intros Hs.
  destruct s as [|c' s'].
  - cbn. by rewrite (Hs c).
  - rewrite IH by exact Hs. done.
Qed.

Lemma EJS_gameName_valid (p : Props) : valid_game_name (EJS_gameName p).
Proof.
  unfold EJS_gameName, trim. split; [|split].
  - intros c Hc. apply (remove_invalid_chars_valid (fs_name_no_tags (rom p))).
    eapply elem_of_sublist; [exact Hc|].
    etransitivity; [apply trimEnd_sublist | apply trimStart_sublist].
  - apply trimEnd_first, trimStart_first.
  - apply trimEnd_last.
Qed.

Lemma valid_game_name_kept (s : string) :
  valid_game_name s → trim (remove_invalid_chars s) = s.
Proof.
  intros (Hchars & Hfirst & Hlast). unfold trim.
  by rewrite remove_invalid_chars_id, trimStart_id, trimEnd_id.
Qed.

(** X2. The game name handed to the runtime has none of the characters of
    [INVALID_CHARS_REGEX] and neither starts nor ends with white space; it
    is what is left of the ROM's file name once characters are deleted from
    it (nothing is added or reordered). *)
Theorem game_name_is_valid (p : Props) :
  (∀ c, c ∈ list_ascii_of_string (EJS_gameName p) → c ∉ INVALID_CHARS) ∧
  (∀ c, first_char (EJS_gameName p) = Some c → is_white_space c = false) ∧
  (∀ c, last_char (EJS_gameName p) = Some c → is_white_space c = false) ∧
  sublist (list_ascii_of_string (EJS_gameName p))
          (list_ascii_of_string (fs_name_no_tags (rom p))).
Proof.
  destruct (EJS_gameName_valid p) as (Hchars & Hfirst & Hlast).
  split; [|split; [done|split; [done|]]].
  - intros c Hc. apply Hchars in Hc. by apply bool_decide_eq_false_1 in Hc.
  - unfold EJS_gameName, trim.
    etransitivity; [apply trimEnd_sublist|].
    etransitivity; [apply trimStart_sublist | apply remove_invalid_chars_sublist].
Qed.

(** X3. The file name is handed to the runtime as it is exactly when it has
    no invalid character and no white space at either end; and computing
    the game name of a game name changes nothing. *)
Theorem game_name_unchanged_iff_valid (p : Props) :
  (EJS_gameName p = fs_name_no_tags (rom p)
   ↔ valid_game_name (fs_name_no_tags (rom p))) ∧
  ∀ p', fs_name_no_tags (rom p') = EJS_gameName p → EJS_gameName p' = EJS_gameName p.
Proof.
  split; [split|].
  - intros <-. apply EJS_gameName_valid.
  - apply valid_game_name_kept.
  - intros p' Hp'. unfold EJS_gameName at 1. rewrite Hp'.
    apply valid_game_name_kept, EJS_gameName_valid.
Qed.

Example EJS_gameName_kept :
  EJS_gameName example_props = "Super Mario Bros".
Proof. reflexivity. Qed.

(** ** Local storage *)

Lemma last_char_cons (c : ascii) (s : string) :
  last_char (String c s) = Some (default c (last_char s)).
Proof.
  revert c. induction s as [|c' s IH]; intros c; [done|].
  change (last_char (String c (String c' s))) with (last_char (String c' s)).
  by rewrite IH.
Qed.

Lemma last_char_append (s t : string) :
  last_char (s ++ t) = match last_char t with
                       | Some c => Some c
                       | None => last_char s
                       end.
Proof.
  induction s as [|c s IH].
  - change ("" ++ t)%string with t. by destruct (last_char t).
  - change (String c s ++ t)%string with (String c (s ++ t)).
    rewrite !last_char_cons, IH. by destruct (last_char t).
Qed.

(** The three keys never coincide: they end in different characters. *)
Lemma storage_keys_distinct (slug id : string) :
  ("player:" ++ slug ++ ":bios_id")%string ≠ ("player:" ++ slug ++ ":core")%string ∧
  ("player:" ++ slug ++ ":bios_id")%string ≠ ("player:" ++ id ++ ":disc")%string ∧
  ("player:" ++ slug ++ ":core")%string ≠ ("player:" ++ id ++ ":disc")%string.
Proof.
  repeat split; intros H; apply (f_equal last_char) in H;
    rewrite !last_char_append in H; discriminate.
Qed.

(** X4. After the bookkeeping of [onMounted], local storage tells the
    choice the player was opened with: under the platform's firmware key the
    identifier of the firmware, under the platform's core key the core,
    under the ROM's disc key the disc, each absent when the choice is null
    or falsy (no firmware, no core or the empty string, no disc or disc 0),
    whatever was stored before; the three entries never overwrite each other
    and every other key is left as it was. *)
Theorem mount_remembers_selection (bios : option FirmwareSchema) (s : Session)
    (localStorage : gmap string string) :
  let stored := onMounted_localStorage bios s localStorage in
  let slug := platform_slug (romRef s) in
  let number := toString (rom_id (romRef s)) in
  stored !! ("player:" ++ slug ++ ":bios_id")%string
    = (λ b, toString (firmware_id b)) <$> bios ∧
  stored !! ("player:" ++ slug ++ ":core")%string
    = (c ← core (props s); if String.eqb c "" then None else Some c) ∧
  stored !! ("player:" ++ number ++ ":disc")%string
    = (d ← disc (props s); if Nat.eqb d 0 then None else Some (toString d)) ∧
  ∀ key, key ≠ ("player:" ++ slug ++ ":bios_id")%string →
         key ≠ ("player:" ++ slug ++ ":core")%string →
         key ≠ ("player:" ++ number ++ ":disc")%string →
         stored !! key = localStorage !! key.
Proof.
  cbn zeta. unfold onMounted_localStorage.
  destruct (storage_keys_distinct (platform_slug (romRef s))
              (toString (rom_id (romRef s)))) as (H1 & H2 & H3).
  set (kb := ("player:" ++ platform_slug (romRef s) ++ ":bios_id")%string) in *.
  set (kc := ("player:" ++ platform_slug (romRef s) ++ ":core")%string) in *.
  set (kd := ("player:" ++ toString (rom_id (romRef s)) ++ ":disc")%string) in *.
  destruct bios as [b|], (core (props s)) as [c|], (disc (props s)) as [d|]; cbn;
    try destruct (String.eqb c ""); try destruct (Nat.eqb d 0);
    repeat split; try intros key ? ? ?;
    repeat first [ rewrite lookup_insert_ne by done
                 | rewrite lookup_delete_ne by done
                 | rewrite lookup_insert_eq
                 | rewrite lookup_delete_eq ];
    done.
Qed.

Example mount_remembers_example :
  onMounted_localStorage (Some example_firmware) example_session
    {["player:nes:core" := "fceumm"; "player:123:disc" := "2"]}
  = {["player:nes:bios_id" := "4"; "player:nes:core" := "nestopia"]}.
Proof. by vm_compute. Qed.

(** ** Loading the cheat list *)

(** X5. When the cheat request resolves, [loadCheatCodes] (run to its end)
    returns and leaves in the cheat buffer exactly the (name, code) pairs of
    the cheats received, in their order, and the empty buffer when the body
    is missing or the list is empty: what the buffer held before is gone.
    It asks for the cheats of the ROM that [romRef] holds, shows no
    notification, calls nothing on the cheat table and changes nothing else
    in the session. *)
Theorem loadCheatCodes_replaces_buffer (data : option (list CheatCode)) (s : Session) :
  let r := loadCheatCodes (Resolved data) s in
  result r = Return tt ∧
  final r = set_EJS_cheats (map (λ c, (name c, code c)) (default [] data)) s ∧
  head (trace r) = Some (api_getCheatCodes (rom_id (romRef s))) ∧
  notifications (trace r) = [] ∧
  cheat_table_calls (trace r) = [].
Proof.
  destruct s as [? ? ? ? ? ? buffer ? ? ? ? element ? ? ?].
  destruct data as [[|c l]|]; cbn; done.
Qed.

(** The calls on the cheat table of an update on a runtime whose cheat
    methods work. *)
Lemma updateEmulatorCheats_table_calls (s : Session) (e : Emulator) (gm : GameManager) :
  EJS_emulator s = Some e →
  gameManager e = Some gm →
  resetCheat gm = Native false →
  setCheat gm = Native false →
  cheat_table_calls (trace (updateEmulatorCheats s))
  = [call_resetCheat; call_resetCheat]
    ++ imap (λ index '(_, code), call_setCheat index false code) (EJS_cheats s).
Proof.
  intros He Hgm Hreset Hset.
  destruct s as [? ? ? ? ? ? buffer ? ? ? ? element ? ? ?]; cbn in He; subst.
  destruct e as [? ui ? ? ?]; cbn in Hgm; subst.
  destruct gm; cbn in Hreset, Hset; subst.
  unfold updateEmulatorCheats, bind, try_catch, trace.
  cbn -[imap cheat_table_calls forEach_from].
  rewrite forEach_setCheat.
  destruct ui as [|[]], element; cbn -[imap cheat_table_calls];
    rewrite !cheat_table_calls_cons; cbn [is_cheat_table_call];
    rewrite <- ?app_assoc, cheat_table_calls_setCheat; cbn; by rewrite app_nil_r.
Qed.

(** X6. [loadCheatCodes] empties the cheat buffer before it awaits the
    server: whatever the answer will be, it pauses with an empty buffer, and
    a cheat update that runs while it waits resets the runtime's cheat table
    and sets no cheat, whatever the buffer held before. *)
Theorem cheat_update_during_reload (r : response (option (list CheatCode)))
    (s : Session) (e : Emulator) (gm : GameManager) :
  EJS_emulator s = Some e →
  gameManager e = Some gm →
  resetCheat gm = Native false →
  setCheat gm = Native false →
  ∃ s1 resume,
    loadCheatCodes r s
      = Paused s1 [api_getCheatCodes (rom_id (romRef s))] resume ∧
    EJS_cheats s1 = [] ∧
    cheat_table_calls (trace (updateEmulatorCheats s1))
      = [call_resetCheat; call_resetCheat].
Proof.
  intros He Hgm Hreset Hset.
  destruct r as [|data]; (eexists _, _; split; [reflexivity|]; split; [done|]);
    by rewrite (updateEmulatorCheats_table_calls _ e gm).
Qed.

(** A reload on the example session with the two example cheats applied. *)
Lemma cheat_update_during_reload_witness :
  ∃ s1 resume,
    loadCheatCodes (Resolved (Some [infinite_lives]))
      (example_session_with example_emulator)
      = Paused s1 [api_getCheatCodes 123] resume ∧
    EJS_cheats s1 = [] ∧
    cheat_table_calls (trace (updateEmulatorCheats s1))
      = [call_resetCheat; call_resetCheat].
Proof.
  exact (cheat_update_during_reload (Resolved (Some [infinite_lives]))
           (example_session_with example_emulator) example_emulator
           example_gameManager eq_refl eq_refl eq_refl eq_refl).
Defined.

(** X7. When the ROM identifier changes, the watcher asks for the cheats of
    the new ROM and, once they arrive, the buffer holds exactly their (name,
    code) pairs; set to the identifier it already has, it asks nothing and
    leaves the session as it is. *)
Theorem rom_change_reloads_cheats (newId : nat) (data : option (list CheatCode))
    (s : Session) :
  newId ≠ rom_id (romRef s) →
  let r := watch_rom_id newId (Resolved data) s in
  result r = Return tt ∧
  head (trace r) = Some (api_getCheatCodes newId) ∧
  EJS_cheats (final r) = map (λ c, (name c, code c)) (default [] data) ∧
  rom_id (romRef (final r)) = newId ∧
  watch_rom_id (rom_id (romRef s)) (Resolved data) s = Ended (Return tt) s [].
Proof.
  intros Hnew.
  destruct s as [? [old slug fs] ? ? ? ? buffer ? ? ? ? element ? ? ?].
  cbn in Hnew. cbn zeta. unfold watch_rom_id, bind, gets, modify.
  cbn [bind_progress prepend romRef set_romRef rom_id platform_slug fs_name_no_tags].
  rewrite decide_False by done. rewrite decide_True by done.
  repeat split; by destruct data as [[|c l]|].
Qed.

(** The example session moves on to ROM 124, which has one cheat. *)
Lemma rom_change_reloads_cheats_witness :
  EJS_cheats (final (watch_rom_id 124 (Resolved (Some [invincibility]))
                       (example_session_with example_emulator)))
  = [("Invincibility", "AEKZZZIA")].
Proof.
  refine (proj1 (proj2 (proj2 (rom_change_reloads_cheats 124
    (Some [invincibility]) (example_session_with example_emulator) _)))).
  cbn. lia.
Defined.

(** ** Mounting and unmounting *)

Lemma remove_first_app_absent (x : string * listener) (l l' : list (string * listener)) :
  x ∉ l → remove_first x (l ++ l') = l ++ remove_first x l'.
Proof.
  induction l as [|y l IH]; [done|]. rewrite not_elem_of_cons. intros [Hne Hl].
  cbn. rewrite decide_False by done. by rewrite IH.
Qed.

(** X8. On a bus where the component's two listeners are not registered
    yet, mounting (run to its end, with the runtime on the page) registers
    them after the listeners that are there, and unmounting then gives the
    bus back exactly as it was: the listeners of other components are kept,
    in their order. *)
Theorem mount_unmount_restores_bus (r : response (option (list CheatCode)))
    (s : Session) (e : Emulator) (l : list (string * listener)) :
  EJS_emulator s = Some e →
  emitter s = Some l →
  ("saveSelected", loadSave_listener) ∉ l →
  ("stateSelected", loadState_listener) ∉ l →
  let s1 := final (onMounted r s) in
  emitter s1 = Some (l ++ [("saveSelected", loadSave_listener);
                           ("stateSelected", loadState_listener)]) ∧
  emitter (final (onBeforeUnmount s1)) = Some l.
Proof.
  intros He Hl Hsave Hstate.
  destruct s as [? ? ? pending ? ? ? ? ? ? ? element bus ? ?]; cbn in He, Hl; subst.
  assert (Hgone :
    remove_first ("stateSelected", loadState_listener)
      (remove_first ("saveSelected", loadSave_listener)
         ((l ++ [("saveSelected", loadSave_listener)])
            ++ [("stateSelected", loadState_listener)])) = l).
  { rewrite <- app_assoc, remove_first_app_absent by done. cbn.
    rewrite remove_first_app_absent by done. cbn. apply app_nil_r. }
  cbn zeta. destruct r as [|data].
  - destruct element, pending; cbn; rewrite Hgone, <- app_assoc; done.
  - destruct data as [[|c cs]|], pending; cbn; rewrite Hgone, <- app_assoc; done.
Qed.

(** Mounting and unmounting on a bus another component listens on. *)
Lemma mount_unmount_restores_bus_witness :
  emitter (final (onBeforeUnmount (final (onMounted Rejected example_session_shared_bus))))
  = Some [("saveSelected", foreign_listener 0)].
Proof.
  refine (proj2 (mount_unmount_restores_bus Rejected example_session_shared_bus
                   example_emulator [("saveSelected", foreign_listener 0)]
                   eq_refl eq_refl _ _));
    rewrite list_elem_of_singleton; discriminate.
Defined.

(** X9. Unmounting does not stop a mount that is under way. When the
    component is unmounted while [onMounted] awaits the cheat list, the
    unmount takes the component's listeners off the bus, where this mount
    has put none yet, and no handler stays paused. If the runtime is on the
    page, or the cheat request is not rejected, the rest of [onMounted] then
    registers the two listeners, after the unmount has looked for them, and
    nothing is left that would take them off. The exception is a request
    rejected before the runtime exists: [onMounted] throws in its
    notification and registers nothing. Without a bus nothing is
    registered either way. *)
Theorem unmount_during_mount_keeps_listeners (r : response (option (list CheatCode)))
    (s : Session) :
  let w := (run [mounted r; before_unmount;
                 handler_resumes 0; handler_resumes 0;
                 handler_resumes 0; handler_resumes 0] (boot s)).1 in
  let swept l := remove_first ("stateSelected", loadState_listener)
                   (remove_first ("saveSelected", loadSave_listener) l) in
  suspended w = [] ∧
  (EJS_emulator s ≠ None ∨ r ≠ Rejected →
   emitter (session w)
     = (λ l, swept l ++ [("saveSelected", loadSave_listener);
                         ("stateSelected", loadState_listener)]) <$> emitter s) ∧
  (EJS_emulator s = None → r = Rejected →
   emitter (session w) = swept <$> emitter s).
Proof.
  destruct s as [? ? ? pending ? ? ? em ? ? ? element bus ? ?].
  cbn zeta. cbn [EJS_emulator emitter]. split; [|split].
  - destruct em, r as [|[[|c cs]|]], element, pending; reflexivity.
  - intros Hok. destruct em, r as [|[[|c cs]|]]; try (by destruct Hok);
      destruct element, pending, bus; cbn; rewrite <- ?app_assoc; done.
  - intros -> ->. destruct pending, bus; reflexivity.
Qed.

(** The example session, unmounted before its rejected cheat request comes
    back. *)
Lemma unmount_during_mount_keeps_listeners_witness :
  emitter (session
    (run [mounted Rejected; before_unmount;
          handler_resumes 0; handler_resumes 0;
          handler_resumes 0; handler_resumes 0] (boot example_session)).1)
  = Some [("saveSelected", loadSave_listener); ("stateSelected", loadState_listener)].
Proof.
  refine (proj1 (proj2 (unmount_during_mount_keeps_listeners Rejected example_session)) _).
  left. discriminate.
Defined.

(** ** Notifications *)

(** X10. With the runtime and the message element on the page, a
    notification is shown by the runtime, the element is decorated with the
    class and the icon, and one timer is scheduled under a fresh identifier;
    when that timer fires, the same class and icon are taken off again and
    the timer table is as it was before the notification. *)
Theorem notification_decoration_is_undone (message : string) (duration : nat)
    (className icon : string) (a : GameStartAnswers) (s : Session) (e : Emulator) :
  EJS_emulator s = Some e →
  messageElement s = true →
  String.eqb icon "" = false →
  timers s !! nextTimer s = None →
  let r := displayMessage message duration className icon s in
  let w := step (timer_fires (nextTimer s) a) (boot (final r)) in
  result r = Return tt ∧
  trace r = [call_displayMessage message duration; classList_add className icon] ∧
  timers (final r) = <[nextTimer s := removeClassTask className icon]> (timers s) ∧
  w.2 = [classList_remove className icon] ∧
  timers (session w.1) = timers s.
Proof.
  intros He Helement Hicon Hfresh. cbn zeta.
  unfold result, trace, final.
  rewrite (displayMessage_run message duration className icon s e He Hicon), Helement.
  cbn [finish fst snd step boot session timers set_timers].
  rewrite lookup_insert_eq. cbn. repeat split.
  by apply delete_insert_id.
Qed.

(** An error notification on the example session. *)
Lemma notification_decoration_is_undone_witness :
  (step (timer_fires 1 example_answers)
     (boot (final (displayMessage "Failed to load cheat codes" 4000 "msg-error"
                     "mdi-alert-circle-outline" example_session)))).2
  = [classList_remove "msg-error" "mdi-alert-circle-outline"].
Proof.
  exact (proj1 (proj2 (proj2 (proj2
    (notification_decoration_is_undone "Failed to load cheat codes" 4000 "msg-error"
       "mdi-alert-circle-outline" example_answers example_session example_emulator
       eq_refl eq_refl eq_refl eq_refl))))).
Defined.

(** ** Persistence bridge *)

Lemma replace_first_unfold (pat rep s : string) :
  replace_first pat rep s
  = if String.prefix pat s then
      (rep ++ String.substring (String.length pat)
                (String.length s - String.length pat) s)%string
    else
      match s with
      | EmptyString => EmptyString
      | String c s' => String c (replace_first pat rep s')
      end.
Proof. by destruct s. Qed.

Lemma prefix_append (pat s : string) : String.prefix pat (pat ++ s) = true.
Proof.
  induction pat as [|c pat IH]; [by destruct s|].
  change (String c pat ++ s)%string with (String c (pat ++ s)). cbn.
  destruct (ascii_dec c c); [done | congruence].
Qed.

Lemma substring_all (s : string) : String.substring 0 (String.length s) s = s.
Proof. induction s as [|c s IH]; cbn; [done | by rewrite IH]. Qed.

Lemma substring_append (pat s : string) :
  String.substring (String.length pat)
    (String.length (pat ++ s) - String.length pat) (pat ++ s) = s.
Proof.
  induction pat as [|c pat IH].
  - change ("" ++ s)%string with s. cbn [String.length].
    rewrite Nat.sub_0_r. apply substring_all.
  - change (String c pat ++ s)%string with (String c (pat ++ s)). exact IH.
Qed.

(** A string that starts with the pattern loses this first occurrence, and
    nothing else. *)
Lemma replace_first_prefix (pat rep s : string) :
  replace_first pat rep (pat ++ s) = (rep ++ s)%string.
Proof. by rewrite replace_first_unfold, prefix_append, substring_append. Qed.

Lemma trace_prepend {A} (t : list event) (p : progress A) :
  trace (prepend t p) = t ++ trace p.
Proof.
  unfold trace. destruct p as [o s t'|s t' resume]; cbn; [done|].
  destruct (finish (resume s)) as [[o s'] t'']. cbn. by rewrite app_assoc.
Qed.

Lemma prefix_split (pat s : string) :
  String.prefix pat s = true → ∃ rest, s = (pat ++ rest)%string.
Proof.
  revert s. induction pat as [|a pat IH]; intros s.
  - intros _. by exists s.
  - destruct s as [|b s]; [done|]. cbn.
    destruct (ascii_dec a b) as [->|]; [|done].
    intros (rest & ->)%IH. by exists rest.
Qed.

(** A string in which the pattern does not occur is left as it is. *)
Lemma replace_first_absent (pat rep s : string) :
  (∀ a b, s ≠ (a ++ pat ++ b)%string) → replace_first pat rep s = s.
Proof.
  induction s as [|c s IH]; intros Hs; rewrite replace_first_unfold.
  - destruct (String.prefix pat "") eqn:Hp; [|done].
    apply prefix_split in Hp as (rest & Hrest). by destruct (Hs "" rest).
  - destruct (String.prefix pat (String c s)) eqn:Hp.
    + apply prefix_split in Hp as (rest & Hrest). by destruct (Hs "" rest).
    + rewrite IH; [done|]. intros a b ->. by destruct (Hs (String c a) b).
Qed.

Lemma loadSave_request (sv : SaveSchema) (r : response (option bytes))
    (picked : option bytes) (s : Session) :
  head (trace (loadSave sv r picked s))
  = Some (api_get (replace_first "/api" "" (save_download_path sv))).
Proof.
  unfold loadSave, bind, modify, emit. cbn [bind_progress prepend app].
  by rewrite !trace_prepend.
Qed.

Lemma loadState_request (st : StateSchema) (r : response (option bytes))
    (picked : option bytes) (s : Session) :
  head (trace (loadState st r picked s))
  = Some (api_get (replace_first "/api" "" (state_download_path st))).
Proof.
  unfold loadState, bind, modify, emit. cbn [bind_progress prepend app].
  by rewrite !trace_prepend.
Qed.

(** X11. The first thing a pull of a save or of a state does is to request
    its download path with the first "/api" taken out: a path that starts
    with "/api" is requested without this prefix, whatever follows it (a
    later "/api" in the path stays), and a path in which "/api" does not
    occur is requested as it is. *)
Theorem pull_request_path (sv : SaveSchema) (st : StateSchema)
    (r : response (option bytes)) (picked : option bytes) (s : Session) :
  let save_request := head (trace (loadSave sv r picked s)) in
  let state_request := head (trace (loadState st r picked s)) in
  (∀ rest, save_download_path sv = ("/api" ++ rest)%string →
           save_request = Some (api_get rest)) ∧
  (∀ rest, state_download_path st = ("/api" ++ rest)%string →
           state_request = Some (api_get rest)) ∧
  ((∀ a b, save_download_path sv ≠ (a ++ "/api" ++ b)%string) →
   save_request = Some (api_get (save_download_path sv))) ∧
  ((∀ a b, state_download_path st ≠ (a ++ "/api" ++ b)%string) →
   state_request = Some (api_get (state_download_path st))).
Proof.
  cbn zeta. rewrite loadSave_request, loadState_request.
  split; [|split; [|split]].
  - intros rest ->. by rewrite (replace_first_prefix "/api" "").
  - intros rest ->. by rewrite (replace_first_prefix "/api" "").
  - intros Habsent. by rewrite replace_first_absent.
  - intros Habsent. by rewrite replace_first_absent.
Qed.

(** The example save. *)
Lemma pull_request_path_witness :
  head (trace (loadSave example_save Rejected None example_session))
  = Some (api_get "/raw/assets/saves/smb.srm").
Proof.
  exact (proj1 (pull_request_path example_save example_state Rejected None
                  example_session) "/raw/assets/saves/smb.srm" eq_refl).
Defined.

(** X12. The save the user selects becomes the save that the next push
    replaces, whether its download succeeds, fails, or waits for a file for
    ever: [loadSave] remembers it before it requests anything, and the next
    [EJS_onSaveSave] uploads with it as the prior save, for the ROM that
    [romRef] holds. *)
Theorem selected_save_is_next_push_target (sv : SaveSchema)
    (r : response (option bytes)) (picked : option bytes)
    (saveFile screenshotFile : bytes) (uploaded : option nat) (s : Session) :
  let s1 := final (loadSave sv r picked s) in
  saveRef s1 = Some sv ∧
  ∃ t, trace (onSaveSave saveFile screenshotFile uploaded s1)
       = upload_save (rom_id (romRef s)) (Some (save_id sv)) saveFile screenshotFile
         :: romsStore_update (rom_id (romRef s)) :: t.
Proof.
  destruct s as [? ? ? ? ? ? ? em ? ? ? element ? ? ?].
  cbn zeta. destruct r as [|[d|]].
  - split; [done|]. destruct em, uploaded, element; cbn; eauto.
  - split; [by destruct em, element|].
    destruct em, uploaded, element; cbn; eauto.
  - split; [by destruct em, picked|].
    destruct em, picked, uploaded, element; cbn; eauto.
Qed.

(** X13. With the runtime on the page, a push of a save and a push of a
    state (run to their end) return, refresh the ROM in the store whether
    the upload succeeded or not, and show exactly one notification, which
    tells the outcome of the upload. *)
Theorem push_reports_outcome (blob screenshotFile : bytes) (uploaded : option nat)
    (s : Session) (e : Emulator) :
  EJS_emulator s = Some e →
  let save := onSaveSave blob screenshotFile uploaded s in
  let state := onSaveState blob screenshotFile uploaded s in
  result save = Return tt ∧
  result state = Return tt ∧
  notifications (trace save)
    = [call_displayMessage
         (match uploaded with
          | Some _ => "Save synced with server"
          | None => "Error syncing save with server"
          end) 4000] ∧
  notifications (trace state)
    = [call_displayMessage
         (match uploaded with
          | Some _ => "State synced with server"
          | None => "Error syncing state with server"
          end) 4000] ∧
  romsStore_update (rom_id (romRef s)) ∈ trace save ∧
  romsStore_update (rom_id (romRef s)) ∈ trace state.
Proof.
  intros He.
  destruct s as [? ? ? ? ? ? ? ? ? ? ? element ? ? ?]; cbn in He; subst.
  destruct uploaded, element; cbn; repeat split; try done;
    rewrite !elem_of_cons; auto.
Qed.

(** A save push on the example session whose upload fails. *)
Lemma push_reports_outcome_witness :
  notifications (trace (onSaveSave [x01] [xff] None example_session))
  = [call_displayMessage "Error syncing save with server" 4000].
Proof.
  exact (proj1 (proj2 (proj2 (push_reports_outcome [x01] [xff] None example_session
                                example_emulator eq_refl)))).
Defined.

Lemma prepend_nil {A} (p : progress A) : prepend [] p = p.
Proof. by destruct p. Qed.

(** A click on an enabled quick-load button, with a state in the store. *)
Lemma quickLoadClick_enabled (undefined_case : Js unit) (s : Session)
    (e : Emulator) (gm : GameManager) (blob : bytes) :
  EJS_emulator s = Some e →
  gameManager e = Some gm →
  settings e !! "save-state-location" = Some "browser" →
  storage_states e !! (getBaseFileName e ++ ".state")%string = Some blob →
  finish (quickLoadClick true undefined_case s)
  = finish (bind (emit (call_loadState blob))
              (λ _, displayMessage "Quick load from server" 3000 "msg-info" "mdi-flash") s).
Proof.
  intros He Hgm Hloc Hblob.
  unfold quickLoadClick, storage_states_get, the_gameManager, bind, the_emulator, await, ret.
  rewrite He. cbn [bind_progress prepend].
  rewrite bool_decide_eq_true_2 by done. cbn [andb].
  rewrite He. cbn [bind_progress prepend await_progress finish].
  rewrite Hblob, He. cbn [bind_progress prepend]. rewrite Hgm.
  cbn [bind_progress prepend app]. rewrite !prepend_nil.
  by destruct (finish _) as [[o s'] t'].
Qed.

(** X14. What the runtime pushes as a state is what the quick-load button
    loads: after [EJS_onSaveState] has run to its end with the blob,
    whether its upload succeeded or not, a click on the quick-load button of
    a runtime that keeps its states in the browser hands exactly this blob
    to the native load of a state and shows one notification; where the
    browser does not support saving, the click does nothing. *)
Theorem quick_load_round_trip (stateFile screenshotFile : bytes)
    (uploaded : option nat) (undefined_case : Js unit) (s : Session)
    (e : Emulator) (gm : GameManager) :
  EJS_emulator s = Some e →
  gameManager e = Some gm →
  settings e !! "save-state-location" = Some "browser" →
  let s1 := final (onSaveState stateFile screenshotFile uploaded s) in
  let r := quickLoadClick true undefined_case s1 in
  result r = Return tt ∧
  pull_calls (trace r) = [call_loadState stateFile] ∧
  notifications (trace r) = [call_displayMessage "Quick load from server" 3000] ∧
  quickLoadClick false undefined_case s1 = Ended (Return tt) s1 [].
Proof.
  intros He Hgm Hloc. cbn zeta.
  assert (Hs1 : ∃ s1, final (onSaveState stateFile screenshotFile uploaded s) = s1 ∧
            EJS_emulator s1
            = Some (set_storage_states
                      (<[(getBaseFileName e ++ ".state")%string := stateFile]>
                         (storage_states e)) e) ∧
            (messageElement s1 = true ∨ messageElement s1 = false)).
  { destruct s as [? ? ? ? ? ? ? ? ? ? ? element ? ? ?]; cbn in He; subst.
    destruct uploaded, element; eexists; (split; [reflexivity|]); cbn; auto. }
  destruct Hs1 as (s1 & -> & He1 & Helement).
  split; [|split; [|split]].
  1-3: unfold result, trace;
    rewrite (quickLoadClick_enabled undefined_case s1 _ gm stateFile He1);
    [ | by destruct e | by destruct e | destruct e; apply lookup_insert_eq ].
  1-3: destruct s1 as [? ? ? ? ? ? ? ? ? ? ? element ? ? ?]; cbn in He1; subst;
    by destruct element.
  unfold quickLoadClick, bind, the_emulator. rewrite He1. cbn [bind_progress prepend].
  by rewrite andb_false_r.
Qed.

(** A state pushed and quick-loaded on a runtime that saves in the browser. *)
Lemma quick_load_round_trip_witness :
  pull_calls
    (trace (quickLoadClick true (throw NativeError)
              (final (onSaveState [x01; x02] [xff] None
                        (example_session_with example_emulator_browser)))))
  = [call_loadState [x01; x02]].
Proof.
  exact (proj1 (proj2 (quick_load_round_trip [x01; x02] [xff] None (throw NativeError)
                         (example_session_with example_emulator_browser)
                         example_emulator_browser example_gameManager
                         eq_refl eq_refl eq_refl))).
Defined.

(** ** Game start *)

(** X15. A download that fails at game start ends the game-start callback:
    when the save the player was opened with, or (with no save) the state,
    cannot be downloaded, the callback throws; it asks for no cheat list,
    schedules no cheat update, and leaves the cheat buffer, the timers and
    the runtime's settings as they were. *)
Theorem failed_download_aborts_game_start (a : GameStartAnswers) (s : Session) :
  (∃ sv, save (props s) = Some sv ∧ save_response a = Rejected) ∨
  (save (props s) = None ∧
   ∃ st, state (props s) = Some st ∧ state_response a = Rejected) →
  let r := gameStartCallback a s in
  result r = Throw NetworkError ∧
  timers (final r) = timers s ∧
  cheatUpdateTimeout (final r) = cheatUpdateTimeout s ∧
  EJS_cheats (final r) = EJS_cheats s ∧
  EJS_emulator (final r) = EJS_emulator s ∧
  (∀ romId, api_getCheatCodes romId ∉ trace r).
Proof.
  destruct s as [p ? ? ? ? ? ? ? ? ? ? element ? ? ?].
  destruct a as [sr sf tr tf cr]. cbn.
  intros [(sv & Hsv & ->)|(Hsv & st & Hst & ->)]; rewrite Hsv, ?Hst; cbn;
    repeat split; try done; intros romId; rewrite !elem_of_cons, elem_of_nil;
    intros [?|[]]; done.
Qed.

(** The example ROM opened with a save whose download fails. *)
Lemma failed_download_aborts_game_start_witness :
  result (gameStartCallback
            {| save_response := Rejected; save_file := None;
               state_response := Resolved None; state_file := None;
               cheat_response := Resolved (Some [infinite_lives]) |}
            example_session_with_save)
  = Throw NetworkError.
Proof.
  refine (proj1 (failed_download_aborts_game_start _ example_session_with_save _)).
  left. exists example_save. split; reflexivity.
Defined.

Lemma filter_imap_none {A} (f : event → bool) (g : nat → A → event) (l : list A) :
  (∀ k x, f (g k x) = false) → List.filter f (imap g l) = [].
Proof.
  revert g. induction l as [|x l IH]; intros g Hg; cbn; [done|].
  rewrite Hg. apply IH. intros k y. apply Hg.
Qed.

(** [updateEmulatorCheats] ends in one go and returns, whatever the runtime. *)
Lemma updateEmulatorCheats_ended (s : Session) :
  ∃ s', updateEmulatorCheats s
        = Ended (Return tt) s' (trace (updateEmulatorCheats s)) ∧
        EJS_cheats s' = EJS_cheats s ∧
        EJS_emulator s' = EJS_emulator s ∧
        cheatUpdateTimeout s' = cheatUpdateTimeout s ∧
        length (notifications (trace (updateEmulatorCheats s))) ≤ 1.
Proof.
  destruct s as [? ? ? ? ? ? buffer em ? ? ? element ? ? ?].
  destruct em as [[[[rc sc]|] ui ? ? ?]|].
  2,3: eexists; cbn; repeat split; try done; lia.
  unfold updateEmulatorCheats, bind, try_catch, trace.
  destruct rc as [|[]].
  1,2: destruct element; eexists; cbn; repeat split; try done; lia.
  destruct sc as [|[]].
  - destruct element; eexists; cbn; repeat split; try done; lia.
  - destruct buffer as [|[d c] l], ui as [|[]], element;
      eexists; cbn; repeat split; try done; lia.
  - cbn -[forEach_from notifications]. rewrite forEach_setCheat.
    destruct ui as [|[]], element; eexists; cbn -[imap notifications].
    all: repeat split; try done.
    all: unfold notifications; cbn [List.filter is_notification];
      rewrite ?List.filter_app, filter_imap_none by done; cbn; lia.
Qed.

Lemma run_cons (i : input) (rest : list input) (w : World) :
  run (i :: rest) w
  = ((run rest (step i w).1).1, (step i w).2 ++ (run rest (step i w).1).2).
Proof. reflexivity. Qed.

Lemma spawn_launched (o : origin) (m : Js unit) (w : World) :
  suspended w = [] → spawn o m w = launched o (m (session w)).
Proof. intros Hw. unfold spawn, launched. rewrite Hw. by destruct (m (session w)). Qed.

(** Resumed at each of its awaits with nothing in between, a handler leaves
    the session and makes the calls that [finish] says. *)
Lemma run_resumes (o : origin) (p : progress unit) (rest : list input) :
  let r := run (repeat (handler_resumes 0) (pauses p) ++ rest) (launched o p).1 in
  let r' := run rest {| session := final p; suspended := [] |} in
  r.1 = r'.1 ∧ (launched o p).2 ++ r.2 = trace p ++ r'.2.
Proof.
  unfold final, trace.
  induction p as [out s t|s t resume IH]; cbn [pauses repeat app launched fst snd finish].
  - done.
  - specialize (IH s). rewrite run_cons.
    change (step (handler_resumes 0) {| session := s; suspended := [(o, resume)] |})
      with (spawn o resume {| session := s; suspended := [] |}).
    rewrite spawn_launched by done. cbn [session].
    destruct (finish (resume s)) as [[out s'] t']. cbn [fst snd] in *.
    destruct IH as [IH1 IH2]. split; [exact IH1|].
    rewrite <- !app_assoc. f_equal. exact IH2.
Qed.

(** X16. From game start to the cheat table. With a runtime whose cheat
    methods work, and the player opened without a save and a state: the
    runtime reports the game start, the deferred callback fires, fetches the
    cheat list and resumes at each of its awaits, and the cheat update it
    schedules fires. Then the calls made on the cheat table, all in all, are
    two resets and one [setCheat(index, false, code)] per cheat received, in
    the order received; the buffer holds the (name, code) pairs of the
    cheats; the runtime is set to keep its states in the browser; the handle
    of the deferred update is null again and no handler is left paused. *)
Theorem game_start_syncs_cheats (a : GameStartAnswers) (l : list CheatCode)
    (s : Session) (e : Emulator) (gm : GameManager) :
  EJS_onGameStart ∈ EJS_hooks s →
  save (props s) = None →
  state (props s) = None →
  EJS_emulator s = Some e →
  gameManager e = Some gm →
  resetCheat gm = Native false →
  setCheat gm = Native false →
  cheat_response a = Resolved (Some l) →
  let n := nextTimer s in
  let r := run [runtime_game_start; timer_fires n a;
                handler_resumes 0; handler_resumes 0;
                handler_resumes 0; handler_resumes 0;
                timer_fires (S n) a] (boot s) in
  cheat_table_calls r.2
    = [call_resetCheat; call_resetCheat]
      ++ imap (λ index c, call_setCheat index false (code c)) l ∧
  EJS_cheats (session r.1) = map (λ c, (name c, code c)) l ∧
  (settings <$> EJS_emulator (session r.1))
    = Some (<["save-state-location" := "browser"]> (settings e)) ∧
  cheatUpdateTimeout (session r.1) = None ∧
  suspended r.1 = [].
Proof.
  intros Hhook Hsave Hstate He Hgm Hreset Hset Hcheats.
  destruct s as [p rom1 save1 pending core1 game1 buffer em hooks tm n element
                 bus play full].
  destruct p as [rom0 save0 state0 core0 disc0].
  cbn in Hhook, He, Hsave, Hstate. subst.
  destruct a as [sr sf tr tf cr]. cbn in Hcheats. subst.
  cbn zeta. cbn [nextTimer].
  set (a := {| save_response := sr; save_file := sf; state_response := tr;
               state_file := tf; cheat_response := Resolved (Some l) |}).
  rewrite run_cons.
  match goal with |- context [step runtime_game_start (boot ?s0)] =>
    assert (H1 : step runtime_game_start (boot s0)
                 = (boot (set_timers (<[n := gameStartTask]> tm) (S n) s0), []))
  end.
  { cbn [step]. unfold spawn, when_hook, bind, gets.
    cbn [session boot EJS_hooks bind_progress prepend].
    by rewrite bool_decide_eq_true_2 by done. }
  rewrite H1. clear H1. cbn [fst snd app].
  rewrite run_cons. cbn [step session boot timers set_timers].
  rewrite lookup_insert_eq. rewrite spawn_launched by done.
  cbn [session origin_of].
  match goal with |- context [launched _ ?p0] => set (cb := p0) end.
  assert (Hcb : finish cb
    = (Return tt,
       set_cheatUpdateTimeout (Some (S n))
         (set_timers
            (<[S n := cheatUpdateTask]>
               (match pending with
                | Some i => delete i (delete n (<[n := gameStartTask]> tm))
                | None => delete n (<[n := gameStartTask]> tm)
                end)) (S (S n))
            (set_EJS_cheats (map (λ c, (name c, code c)) l)
               (set_EJS_emulator
                  (Some (set_settings
                           (<["save-state-location" := "browser"]> (settings e)) e))
                  {| props := {| rom := rom0; save := None; state := None;
                                 core := core0; disc := disc0 |};
                     romRef := rom1; saveRef := save1;
                     cheatUpdateTimeout := pending; EJS_core := core1;
                     EJS_gameID := game1; EJS_cheats := buffer;
                     EJS_emulator := Some e; EJS_hooks := hooks;
                     timers := tm; nextTimer := n; messageElement := element;
                     emitter := bus; playing := play;
                     fullScreen := full |}))),
       api_getCheatCodes (rom_id rom1) :: console_log "Fetched cheat codes:"
         :: match l with
            | [] => []
            | _ => [console_log "Formatting cheat codes for EmulatorJS:";
                    console_log "Cheat codes loaded:"]
            end)
    ∧ pauses cb = 4).
  { subst cb. by destruct l, pending. }
  destruct Hcb as [Hcb Hp].
  change [handler_resumes 0; handler_resumes 0; handler_resumes 0; handler_resumes 0;
          timer_fires (S n) a]
    with (repeat (handler_resumes 0) 4 ++ [timer_fires (S n) a]).
  rewrite <- Hp.
  destruct (run_resumes game_start_callback cb [timer_fires (S n) a]) as [E1 E2].
  cbn zeta in E1, E2. rewrite E1, E2. unfold final, trace. rewrite Hcb.
  cbn [fst snd]. clear E1 E2 Hp Hcb cb.
  rewrite run_cons. cbn [step session timers set_timers set_cheatUpdateTimeout
                         set_EJS_cheats set_EJS_emulator].
  rewrite lookup_insert_eq, spawn_launched by done. cbn [origin_of session].
  unfold fire, run_task, cheatUpdateCallback, bind, clearTimeout, modify.
  cbn [bind_progress prepend].
  match goal with |- context [updateEmulatorCheats ?s0] =>
    destruct (updateEmulatorCheats_ended s0) as (s3 & Hrun & Hbuf & Hemu & _ & _);
    rewrite Hrun
  end.
  cbn in Hbuf, Hemu.
  cbn [bind_progress prepend launched run fst snd app session
       suspended set_cheatUpdateTimeout EJS_cheats EJS_emulator cheatUpdateTimeout].
  rewrite ?app_nil_r, !cheat_table_calls_cons. cbn [is_cheat_table_call].
  rewrite cheat_table_calls_app.
  match goal with |- context [updateEmulatorCheats ?s0] =>
    rewrite (updateEmulatorCheats_table_calls s0 _ gm eq_refl Hgm Hreset Hset)
  end.
  rewrite Hbuf, Hemu. split; [|done].
  cbn [EJS_cheats set_timers set_cheatUpdateTimeout set_EJS_cheats set_EJS_emulator].
  change (map ?f l) with (f <$> l). rewrite imap_fmap.
  by destruct l.
Qed.

(** The example session and the two example cheats. *)
Lemma game_start_syncs_cheats_witness :
  cheat_table_calls
    (run [runtime_game_start; timer_fires 1 example_answers;
          handler_resumes 0; handler_resumes 0;
          handler_resumes 0; handler_resumes 0;
          timer_fires 2 example_answers] (boot example_session)).2
  = [call_resetCheat; call_resetCheat;
     call_setCheat 0 false "SXYIZVSE"; call_setCheat 1 false "AEKZZZIA"].
Proof.
  refine (proj1 (game_start_syncs_cheats example_answers
                   [infinite_lives; invincibility] example_session example_emulator
                   example_gameManager _ eq_refl eq_refl eq_refl eq_refl eq_refl
                   eq_refl eq_refl)).
  cbn. repeat constructor.
Defined.

Lemma run_dormant_world (inputs : list input) (w : World) :
  runtime_game_start ∉ inputs → dormant_world w → dormant_world (run inputs w).1.
Proof.
  revert w. induction inputs as [|i rest IH]; intros w Hno Hd; [done|].
  apply not_elem_of_cons in Hno as [Hi Hrest].
  destruct (step_dormant i w) as [Hd' _]; [done..|].
  cbn. by apply IH.
Qed.

Lemma boot_dormant (G : string → list string) (p : Props) (pg : Page) :
  dormant_world (boot (setup G p pg)).
Proof.
  split.
  - intros i t Hi. cbn in Hi. by rewrite lookup_empty in Hi.
  - intros o k Hin. cbn in Hin. by apply elem_of_nil in Hin.
Qed.

(** X17. Before the runtime reports a game start, nothing the component
    does touches the runtime's cheat table: whatever else happens until then
    (mounting, a change of ROM, pushes and pulls of saves and states, bus
    events, timers, unmounting), with handlers paused and resumed in any
    order, no [resetCheat] or [setCheat] call is made and no deferred cheat
    update is pending. *)
Theorem no_cheat_call_before_game_start (G : string → list string) (p : Props)
    (pg : Page) (inputs : list input) :
  runtime_game_start ∉ inputs →
  let r := run inputs (boot (setup G p pg)) in
  cheat_table_calls r.2 = [] ∧
  ∀ i, ¬ cheat_pending (session r.1) i.
Proof.
  intros Hno. cbn zeta. split.
  - apply run_dormant; [done | apply boot_dormant].
  - intros i Hi.
    destruct (run_dormant_world inputs _ Hno (boot_dormant G p pg)) as [Hd _].
    by destruct (Hd i _ Hi) as (c & ic & ?).
Qed.

(** The example session is mounted, a state is pushed and a save pulled. *)
Lemma no_cheat_call_before_game_start_witness :
  cheat_table_calls
    (run [mounted (Resolved (Some [infinite_lives])); handler_resumes 0;
          runtime_save_state [x01] [xff] (Some 3); runtime_load_save;
          save_selected example_save (Resolved (Some [x02])) None;
          handler_resumes 0; handler_resumes 1]
       (boot example_session)).2
  = [].
Proof.
  refine (proj1 (no_cheat_call_before_game_start example_cores example_props
                   example_page _ _)).
  rewrite !not_elem_of_cons. repeat split; try discriminate. apply not_elem_of_nil.
Defined.

(** ** The handle of the deferred cheat update *)

(** An assertion on sessions that every handler of the component keeps is
    kept by every run of the event loop. *)
Lemma run_invariant (P : Session → Prop) `{!Allows (holds P)} :
  respects True (holds P) onGameStart →
  respects True (holds P) onBeforeUnmount →
  (∀ i t a s, timers s !! i = Some t → obeys True (holds P) s (fire i t a s)) →
  ∀ inputs w,
    P (session w) →
    (∀ o k, (o, k) ∈ suspended w → respects True (holds P) k) →
    P (session (run inputs w).1).
Proof.
  intros Hstart Hunmount Hfire inputs.
  induction inputs as [|i rest IH]; intros w HP Hw; [done|].
  cbn.
  assert (Hstep : ∀ o m w', session w' = session w →
            (∀ x, x ∈ suspended w' → x ∈ suspended w) →
            obeys True (holds P) (session w) (m (session w)) →
            P (session (spawn o m w').1) ∧
            ∀ o' k, (o', k) ∈ suspended (spawn o m w').1 → respects True (holds P) k).
  { intros o m w' Hs Hsub Hm. rewrite <- Hs in Hm. split.
    - apply (spawn_session (holds P) o m w' Hm). by rewrite Hs.
    - apply (spawn_suspended (λ _ k, respects True (holds P) k) o m w').
      + intros o' k Hin. eapply Hw, Hsub, Hin.
      + by eapply tail_obeys. }
  assert (Hnext : P (session (step i w).1) ∧
            ∀ o k, (o, k) ∈ suspended (step i w).1 → respects True (holds P) k).
  { destruct (step_classify i w) as [(m & -> & Hm)|[->|[->|[(k & a & ->)|(n & ->)]]]].
    - apply Hstep; [done..|]. apply Hm; tc_solve.
    - apply (Hstep other_handler onBeforeUnmount w); [done..|]. apply Hunmount.
    - apply (Hstep other_handler (when_hook EJS_onGameStart onGameStart) w); [done..|].
      by use respects_when_hook.
    - cbn [step]. destruct (timers (session w) !! k) as [t|] eqn:Ht; [|done].
      apply Hstep; [done..|]. by apply Hfire.
    - cbn [step]. destruct (suspended w !! n) as [[o k]|] eqn:Hn; [|done].
      apply Hstep; [done| |].
      + cbn. intros x Hx. by eapply list_elem_of_delete_inv.
      + apply (Hw o k). by eapply list_elem_of_lookup_2. }
  destruct Hnext as [HP' Hw']. by apply IH.
Qed.

#[global] Instance handle_inv_allows : Allows (holds handle_inv).
Proof.
  split.
  - intros e s _ H. exact H.
  - intros f s Hf [Hb Hinv]. destruct (Hf s) as (Ht & Hn & Hr). split.
    + unfold bounded. by rewrite Ht, Hn.
    + intros i. unfold cheat_pending. rewrite Ht, Hr. apply Hinv.
  - intros c ic d s [Hb Hinv]. split; [by apply bounded_setTimeout|].
    intros i. unfold cheat_pending. cbn.
    destruct (decide (i = nextTimer s)) as [->|Hne].
    + rewrite lookup_insert_eq. split; [|done].
      intros Hi%Hinv. specialize (Hb _ (ex_intro _ cheatUpdateTask Hi)). lia.
    + rewrite lookup_insert_ne by done. apply Hinv.
Qed.

Lemma handle_inv_onGameStart : respects True (holds handle_inv) onGameStart.
Proof.
  intros s [Hb Hinv]. cbn. split; [by apply (bounded_setTimeout gameStartTask 10)|].
  intros i. unfold cheat_pending. cbn.
  destruct (decide (i = nextTimer s)) as [->|Hne].
  - rewrite lookup_insert_eq. split; [|done].
    intros Hi%Hinv. specialize (Hb _ (ex_intro _ cheatUpdateTask Hi)). lia.
  - rewrite lookup_insert_ne by done. apply Hinv.
Qed.

Lemma bounded_clearTimeout (i : nat) (s : Session) :
  bounded s → bounded (final (clearTimeout i s)).
Proof.
  intros Hb j [x Hx]. cbn in *. apply lookup_delete_Some in Hx as [_ Hx].
  apply Hb. by exists x.
Qed.

Lemma handle_inv_onBeforeUnmount : respects True (holds handle_inv) onBeforeUnmount.
Proof.
  intros s. destruct (onBeforeUnmount_ended s) as (s' & -> & Ht & Hn & Href).
  intros [Hb Hinv]. split.
  - intros j [x Hx]. rewrite Hn. apply Hb. exists x. rewrite Ht in Hx.
    destruct (cheatUpdateTimeout s); [|done].
    by apply lookup_delete_Some in Hx as [_ Hx].
  - intros i. rewrite Href. unfold cheat_pending. rewrite Ht. split; [done|].
    destruct (cheatUpdateTimeout s) as [old|] eqn:Hold.
    + intros [Hne Hi]%lookup_delete_Some. apply Hinv in Hi. congruence.
    + intros Hi. apply Hinv in Hi. congruence.
Qed.

(** The end of the game-start callback keeps the handle and the timer in step. *)
Lemma handle_inv_reschedule :
  respects True (holds handle_inv)
    (pending <- gets cheatUpdateTimeout ;;
     match pending with
     | Some i => clearTimeout i
     | None => ret tt
     end ;;
     i <- setTimeout cheatUpdateTask 1000 ;;
     modify (set_cheatUpdateTimeout (Some i))).
Proof.
  intros s. unfold bind, gets. cbn.
  destruct (cheatUpdateTimeout s) as [old|] eqn:Href; cbn; intros [Hb Hinv]; split.
  - apply (bounded_setTimeout cheatUpdateTask 1000 (final (clearTimeout old s))).
    by apply bounded_clearTimeout.
  - intros j. unfold cheat_pending. cbn.
    destruct (decide (j = nextTimer s)) as [->|Hne].
    + by rewrite lookup_insert_eq.
    + rewrite lookup_insert_ne by done. split; [congruence|].
      intros [Hold Hj]%lookup_delete_Some. apply Hinv in Hj. congruence.
  - by apply (bounded_setTimeout cheatUpdateTask 1000 s).
  - intros j. unfold cheat_pending. cbn.
    destruct (decide (j = nextTimer s)) as [->|Hne].
    + by rewrite lookup_insert_eq.
    + rewrite lookup_insert_ne by done. split; [congruence|].
      intros Hj. apply Hinv in Hj. congruence.
Qed.

Lemma handle_inv_gameStartCallback (a : GameStartAnswers) :
  respects True (holds handle_inv) (gameStartCallback a).
Proof.
  pose proof (respects_loadSave (holds handle_inv)).
  pose proof (respects_loadState (holds handle_inv)).
  pose proof (respects_loadCheatCodes (holds handle_inv)).
  pose proof handle_inv_reschedule.
  unfold gameStartCallback. frame.
Qed.

Lemma handle_inv_fire (i : nat) (t : task) (a : GameStartAnswers) (s : Session) :
  timers s !! i = Some t →
  obeys True (holds handle_inv) s (fire i t a s).
Proof.
  intros Ht. destruct t as [| |c ic].
  - apply (obeys_bind True (holds handle_inv) s (clearTimeout i s)).
    + cbn. intros [Hb Hinv]. split; [by apply bounded_clearTimeout|].
      intros j. unfold cheat_pending. cbn. split.
      * intros Hj. apply Hinv in Hj. rewrite lookup_delete_ne; [done|].
        unfold cheat_pending in Hj. congruence.
      * intros [_ Hj]%lookup_delete_Some. by apply Hinv.
    + intros _. apply handle_inv_gameStartCallback.
  - unfold fire, bind, run_task, cheatUpdateCallback, bind, clearTimeout, modify.
    cbn [bind_progress prepend].
    set (s1 := set_timers (delete i (timers s)) (nextTimer s) s).
    destruct (updateEmulatorCheats_ended s1) as (s2 & Hrun & _).
    pose proof (respects_updateEmulatorCheats False (holds idle) s1) as Hidle.
    pose proof (respects_updateEmulatorCheats False grows s1) as Hgrows.
    rewrite Hrun in Hidle, Hgrows |- *. cbn in Hidle, Hgrows |- *.
    intros [Hb Hinv].
    assert (Hb1 : bounded s1) by (by apply (bounded_clearTimeout i s)).
    destruct (Hgrows Hb1) as (Hb2 & _).
    split; [done|]. intros j. split; [done|].
    intros Hj. exfalso. apply (Hidle (sync_inv_clear s i (λ k Hk, proj2 (Hinv k) Hk)
                                        (proj2 (Hinv i) Ht)) j Hj).
  - cbn. intros [Hb Hinv]. split; [by apply (bounded_clearTimeout i s)|].
    intros j. unfold cheat_pending. cbn. split.
    + intros Hj. apply Hinv in Hj. rewrite lookup_delete_ne; [done|].
      unfold cheat_pending in Hj. congruence.
    + intros [_ Hj]%lookup_delete_Some. by apply Hinv.
Qed.

(** X18. In every world reached from the script's start by any sequence of
    events, with handlers paused at their awaits and resumed in any order,
    [cheatUpdateTimeout] holds an identifier exactly when the timer of that
    identifier is a pending deferred cheat update: the handle is null
    whenever no update is pending, and it never names a timer that has
    fired or was cleared. *)
Theorem cheat_update_handle_tracks_timer (G : string → list string) (p : Props)
    (pg : Page) (inputs : list input) :
  let w := (run inputs (boot (setup G p pg))).1 in
  ∀ i, cheatUpdateTimeout (session w) = Some i ↔ cheat_pending (session w) i.
Proof.
  cbn zeta.
  apply (run_invariant handle_inv handle_inv_onGameStart handle_inv_onBeforeUnmount
           handle_inv_fire inputs (boot (setup G p pg))).
  - split.
    + intros i [x Hx]. cbn in Hx. by rewrite lookup_empty in Hx.
    + intros i. unfold cheat_pending. cbn. by rewrite lookup_empty.
  - intros o k Hin. cbn in Hin. by apply elem_of_nil in Hin.
Qed.

(** ** Direct update of the cheat table: failures *)

(** X19. [updateEmulatorCheats] has no await, and no failure of the game
    manager makes it throw. In every session, whether the runtime or its
    game manager is absent, or [resetCheat], [setCheat] or [updateCheatUI]
    is missing or throws, it returns, given that the runtime's own
    [displayMessage] returns when a [catch] block calls it (it is a function
    that returns in every runtime of this model; the code does not guard
    that call). It leaves the cheat buffer, the runtime object and the handle
    of the deferred update as they were, and shows at most one
    notification. *)
Theorem updateEmulatorCheats_returns (s : Session) :
  let r := updateEmulatorCheats s in
  (∃ s' t, r = Ended (Return tt) s' t) ∧
  EJS_cheats (final r) = EJS_cheats s ∧
  EJS_emulator (final r) = EJS_emulator s ∧
  cheatUpdateTimeout (final r) = cheatUpdateTimeout s ∧
  length (notifications (trace r)) ≤ 1.
Proof.
  cbn zeta. destruct (updateEmulatorCheats_ended s) as (s' & Hrun & H1 & H2 & H3 & H4).
  split; [eauto|]. unfold final. rewrite Hrun. cbn. auto.
Qed.

(** X20. What the capability check of [updateEmulatorCheats] amounts to.
    When the game manager has no [resetCheat], the update does not reach the
    check: the first, unguarded [resetCheat] call throws, nothing is called
    on the cheat table and the failure is notified. When [resetCheat] works
    and [setCheat] is missing, the cheat table is reset once, then the check
    skips the rest: no cheat is set and nothing is notified. *)
Theorem updateEmulatorCheats_capability_check (s : Session) (e : Emulator)
    (gm : GameManager) :
  EJS_emulator s = Some e →
  gameManager e = Some gm →
  let r := updateEmulatorCheats s in
  (resetCheat gm = Missing →
     cheat_table_calls (trace r) = [] ∧
     notifications (trace r)
       = [call_displayMessage "Failed to update emulator cheats" 4000]) ∧
  (resetCheat gm = Native false → setCheat gm = Missing →
     cheat_table_calls (trace r) = [call_resetCheat] ∧
     notifications (trace r) = [] ∧
     last (trace r)
       = Some (console_log "Emulator missing required cheat methods, skipping cheat update")).
Proof.
  intros He Hgm.
  destruct s as [? ? ? ? ? ? buffer ? ? ? ? element ? ? ?]; cbn in He; subst.
  destruct e as [? ui ? ? ?]; cbn in Hgm; subst.
  destruct gm as [rc sc]. cbn zeta. split.
  - cbn. intros ->. by destruct element.
  - cbn. intros -> ->. done.
Qed.

(** The two example cheats on a runtime without [setCheat]. *)
Lemma updateEmulatorCheats_capability_check_witness :
  cheat_table_calls
    (trace (updateEmulatorCheats (example_session_with example_emulator_without_setCheat)))
  = [call_resetCheat].
Proof.
  exact (proj1 (proj2 (updateEmulatorCheats_capability_check
                         (example_session_with example_emulator_without_setCheat)
                         example_emulator_without_setCheat
                         {| resetCheat := Native false; setCheat := Missing |}
                         eq_refl eq_refl) eq_refl eq_refl)).
Defined.

(** X21. When a cheat method throws, the update stops there and notifies
    the failure once. A throwing [resetCheat] is called once and nothing
    else is called on the cheat table; a throwing [setCheat], on a buffer
    that is not empty, is called for the first cheat only, after the two
    resets: the cheats after the first are not applied. *)
Theorem updateEmulatorCheats_throwing_method (s : Session) (e : Emulator)
    (gm : GameManager) :
  EJS_emulator s = Some e →
  gameManager e = Some gm →
  let r := updateEmulatorCheats s in
  (resetCheat gm = Native true →
     cheat_table_calls (trace r) = [call_resetCheat] ∧
     notifications (trace r)
       = [call_displayMessage "Failed to update emulator cheats" 4000]) ∧
  (resetCheat gm = Native false → setCheat gm = Native true →
     ∀ d c rest, EJS_cheats s = (d, c) :: rest →
     cheat_table_calls (trace r)
       = [call_resetCheat; call_resetCheat; call_setCheat 0 false c] ∧
     notifications (trace r)
       = [call_displayMessage "Failed to apply cheat codes" 4000]).
Proof.
  intros He Hgm.
  destruct s as [? ? ? ? ? ? buffer ? ? ? ? element ? ? ?]; cbn in He; subst.
  destruct e as [? ui ? ? ?]; cbn in Hgm; subst.
  destruct gm as [rc sc]. cbn zeta. split.
  - cbn. intros ->. by destruct element.
  - cbn. intros -> -> d c rest ->. by destruct element.
Qed.

(** The two example cheats on a runtime whose [setCheat] throws. *)
Lemma updateEmulatorCheats_throwing_method_witness :
  cheat_table_calls
    (trace (updateEmulatorCheats (example_session_with example_emulator_throwing_setCheat)))
  = [call_resetCheat; call_resetCheat; call_setCheat 0 false "SXYIZVSE"].
Proof.
  exact (proj1 (proj2 (updateEmulatorCheats_throwing_method
                         (example_session_with example_emulator_throwing_setCheat)
                         example_emulator_throwing_setCheat
                         {| resetCheat := Native false; setCheat := Native true |}
                         eq_refl eq_refl) eq_refl eq_refl
                  "Infinite Lives" "SXYIZVSE" [("Invincibility", "AEKZZZIA")] eq_refl)).
Defined.

(** ** The cheat table of the ROM details page *)

Lemma filter_all {A} (P : A → Prop) `{∀ x, Decision (P x)} (l : list A) :
  (∀ x, x ∈ l → P x) → filter P l = l.
Proof.
  induction l as [|x l IH]; [done|]. intros Hl.
  rewrite filter_cons_True by (apply Hl; left).
  rewrite IH; [done|]. intros y Hy. apply Hl. by right.
Qed.

(** X22. A confirmed delete that the backend accepts takes out of the
    table, as it is when the answer arrives, the rows of that cheat and no
    other row; the rows left keep their order and the form is untouched;
    deleting again changes nothing. A delete the user does not confirm sends
    no request, and a delete the backend refuses or fails leaves the table
    as it is. *)
Theorem cheat_delete_removes_exactly (romId cheatId : nat)
    (success : response bool) (v now : Cheats.View) :
  ∃ resume,
    Cheats.deleteCheat romId cheatId true (Resolved true) v
      = Cheats.Awaiting v (Cheats.deleteRomCheat romId cheatId) resume ∧
    (∀ r, r ∈ Cheats.cheats (resume now)
          ↔ r ∈ Cheats.cheats now ∧ Cheats.id (Cheats.cheat r) ≠ cheatId) ∧
    sublist (Cheats.cheats (resume now)) (Cheats.cheats now) ∧
    Cheats.newCheat (resume now) = Cheats.newCheat now ∧
    resume (resume now) = resume now ∧
    Cheats.deleteCheat romId cheatId false success v = Cheats.Ended v ∧
    (success ≠ Resolved true →
     Cheats.settled (Cheats.deleteCheat romId cheatId true success v) = v).
Proof.
  eexists. split; [reflexivity|]. cbn.
  split; [|split; [|split; [|split; [|split]]]].
  - intros r. rewrite list_elem_of_filter. tauto.
  - apply sublist_filter.
  - done.
  - f_equal. apply filter_all. by intros r [? _]%list_elem_of_filter.
  - done.
  - intros Hfail. by destruct success as [|[]].
Qed.

(** X23. Adding a cheat and deleting it again gives the table back. When
    the form has a name and a code, [addCheat] sends them; on an answer with
    an identifier that no row has yet, it appends one row for the cheat, not
    in edit mode, and empties the form; a confirmed, accepted delete of that
    identifier then leaves exactly the rows there were before. *)
Theorem cheat_add_then_delete (romId : nat) (c : Cheats.Cheat) (v : Cheats.View) :
  Cheats.field_name (Cheats.newCheat v) ≠ "" →
  Cheats.field_code (Cheats.newCheat v) ≠ "" →
  Cheats.id c ≠ 0 →
  (∀ r, r ∈ Cheats.cheats v → Cheats.id (Cheats.cheat r) ≠ Cheats.id c) →
  let add := Cheats.addCheat romId (Resolved (Some c)) v in
  let v1 := Cheats.settled add in
  Cheats.sent add = Some (Cheats.addRomCheat romId (Cheats.newCheat v)) ∧
  Cheats.cheats v1 = Cheats.cheats v ++ [Cheats.new_row c] ∧
  Cheats.newCheat v1 = Cheats.empty_fields ∧
  Cheats.cheats
    (Cheats.settled (Cheats.deleteCheat romId (Cheats.id c) true (Resolved true) v1))
  = Cheats.cheats v.
Proof.
  intros Hname Hcode Hid Hfresh. cbn zeta. unfold Cheats.addCheat.
  apply String.eqb_neq in Hname, Hcode. rewrite Hname, Hcode. cbn.
  apply Nat.eqb_neq in Hid. rewrite Hid. cbn. repeat split.
  rewrite filter_app, filter_all by done.
  rewrite filter_cons_False by (cbn; tauto). apply app_nil_r.
Qed.

(** The example cheat added to an empty table, and deleted. *)
Lemma cheat_add_then_delete_witness :
  Cheats.cheats
    (Cheats.settled
       (Cheats.deleteCheat 123 7 true (Resolved true)
          (Cheats.settled (Cheats.addCheat 123 (Resolved (Some example_cheat))
                             example_view))))
  = [].
Proof.
  refine (proj2 (proj2 (proj2 (cheat_add_then_delete 123 example_cheat example_view
                                 _ _ _ _)))).
  - discriminate.
  - discriminate.
  - discriminate.
  - intros r Hr. by apply elem_of_nil in Hr.
Defined.

(** X24. A cheat is added only from a form that has a name and a code, and
    only on an answer that carries an identifier: with an empty name or an
    empty code no request is sent, and on a rejection, an empty answer or an
    answer without identifier the table and the form stay as they are. *)
Theorem cheat_add_needs_name_code_and_id (romId : nat)
    (result : response (option Cheats.Cheat)) (v : Cheats.View) :
  let add := Cheats.addCheat romId result v in
  (Cheats.field_name (Cheats.newCheat v) = "" ∨
   Cheats.field_code (Cheats.newCheat v) = "" → add = Cheats.Ended v) ∧
  ((∀ c, result = Resolved (Some c) → Cheats.id c = 0) → Cheats.settled add = v).
Proof.
  cbn zeta. unfold Cheats.addCheat. split.
  - intros [->| ->]; [done|]. by rewrite orb_true_r.
  - intros Hresult. destruct (_ || _); [done|]. cbn.
    destruct result as [|[c|]]; try done.
    by rewrite (Hresult c eq_refl).
Qed.

(** X25. A saved edit shows what was sent. [saveEdit] sends the edit fields
    as they are when it is called; when the backend accepts, these sent
    values become the row's name, code and description and the row leaves
    edit mode, also if the edit fields were changed while the request was
    out (the edit fields keep the newer text); with nothing in between the
    row is the row of the updated cheat. When the backend refuses or the
    request fails, the row stays as it is. Entering edit mode changes
    nothing but the mode, and toggling twice gives the row back. *)
Theorem cheat_edit_shows_what_was_sent (romId : nat) (result : response bool)
    (r now : Cheats.Row) :
  let payload := {| Cheats.field_name := Cheats.editName r;
                    Cheats.field_code := Cheats.editCode r;
                    Cheats.field_description := Cheats.editDescription r |} in
  ∃ resume,
    Cheats.saveEdit romId result r
      = Cheats.Awaiting r
          (Cheats.updateRomCheat romId (Cheats.id (Cheats.cheat r)) payload) resume ∧
    (result = Resolved true →
       Cheats.cheat (resume now)
         = {| Cheats.id := Cheats.id (Cheats.cheat now);
              Cheats.name := Cheats.editName r; Cheats.code := Cheats.editCode r;
              Cheats.description := Cheats.editDescription r |} ∧
       Cheats.isEditing (resume now) = false ∧
       Cheats.editName (resume now) = Cheats.editName now ∧
       resume r = Cheats.new_row (Cheats.cheat (resume r))) ∧
    (result ≠ Resolved true → resume now = now) ∧
    Cheats.cheat (Cheats.toggleEdit r) = Cheats.cheat r ∧
    Cheats.toggleEdit (Cheats.toggleEdit r) = r.
Proof.
  cbn zeta. eexists. split; [reflexivity|]. split; [|split; [|split]].
  - intros ->. by destruct r, now.
  - intros Hfail. by destruct result as [|[]].
  - done.
  - destruct r as [c []]; reflexivity.
Qed.
